(** * Notq-AI: the raw-PCM to WAV encoder of [nodes/text_to_speech.py]

    A shallow embedding of [parse_audio_mime_type], [convert_to_wav] and of
    the payload/extension decision of [text_to_speech], together with the
    Python built-ins they call ([str.strip], [str.split], [str.lower],
    [str.startswith], [int], [struct.pack]).

    Conventions of the embedding.
    - A Python [str] is a [string]; its characters are the code points
      below 256 (ASCII and Latin-1), on which [lower], [strip] and [int]
      follow CPython.  Code points above 255 are outside the model.
    - A Python [int] is a [Z]; [//] is [Z.div] (both round to minus infinity).
    - A [bytes] object is a [list byte].
    - Exceptions are values: a computation that can raise returns [exc A].
      [try: ... except Exception: ...] is [try_except].
    - [int] refuses a literal of more than 4300 digits, the interpreter's
      default limit ([sys.int_info.default_max_str_digits]).  [py_str n] is
      the decimal text of [n]; a statement that needs [int] to read it back
      bounds its number of digits. *)

From Stdlib Require Import ZArith List Bool Ascii String Lia Permutation.
From Stdlib.Strings Require Import Byte.
From Stdlib Require Import DecimalString DecimalZ Decimal.
Import ListNotations.

Local Open Scope Z_scope.
Local Open Scope string_scope.

(** ** Exceptions *)

Inductive exn : Type :=
| ValueError    (* int() on an invalid literal *)
| IndexError    (* list index out of range *)
| StructError.  (* struct.error: argument out of range, wrong argument count *)

Inductive exc (A : Type) : Type :=
| Ret (a : A)
| Raise (e : exn).

Arguments Ret {A} a.
Arguments Raise {A} e.

Definition bind {A B : Type} (m : exc A) (k : A -> exc B) : exc B :=
  match m with
  | Ret a => k a
  | Raise e => Raise e
  end.

Notation "x <- m ;; k" := (bind m (fun x => k))
  (at level 61, m at next level, right associativity).

(** [try: body except Exception: handler] *)
Definition try_except {A : Type} (body : exc A) (handler : exn -> exc A) : exc A :=
  match body with
  | Ret a => Ret a
  | Raise e => handler e
  end.

Definition returns {A : Type} (m : exc A) : Prop := exists a, m = Ret a.

(** ** Python strings *)

Definition code (c : ascii) : N := N_of_ascii c.

(** [str.lower] on one code point below 256: A-Z, and the Latin-1 capitals
    U+00C0..U+00DE except the multiplication sign U+00D7. *)
Definition lower_char (c : ascii) : ascii :=
  let n := code c in
  if ((65 <=? n) && (n <=? 90) ||
      (192 <=? n) && (n <=? 222) && negb (n =? 215))%N
  then ascii_of_N (n + 32) else c.

Fixpoint lower (s : string) : string :=
  match s with
  | EmptyString => EmptyString
  | String c r => String (lower_char c) (lower r)
  end.

(** [str.isspace] on one code point below 256. *)
Definition isspace (c : ascii) : bool :=
  let n := code c in
  ((9 <=? n) && (n <=? 13) || (28 <=? n) && (n <=? 32)
   || (n =? 133) || (n =? 160))%N.

(** The white space [int] skips around a literal: the file separators
    U+001C..U+001F are not part of it. *)
Definition int_isspace (c : ascii) : bool :=
  let n := code c in
  ((9 <=? n) && (n <=? 13) || (n =? 32) || (n =? 133) || (n =? 160))%N.

Fixpoint lstrip_with (sp : ascii -> bool) (s : string) : string :=
  match s with
  | EmptyString => EmptyString
  | String c r => if sp c then lstrip_with sp r else s
  end.

Fixpoint rstrip_with (sp : ascii -> bool) (s : string) : string :=
  match s with
  | EmptyString => EmptyString
  | String c r =>
      match rstrip_with sp r with
      | EmptyString => if sp c then EmptyString else String c EmptyString
      | r' => String c r'
      end
  end.

Definition strip_with (sp : ascii -> bool) (s : string) : string :=
  rstrip_with sp (lstrip_with sp s).

(** [s.strip()] *)
Definition strip (s : string) : string := strip_with isspace s.

(** [s.startswith(pre)] *)
Definition startswith (s pre : string) : bool := String.prefix pre s.

(** [s.split(sep)] for a one-character separator: never empty, [""] for
    the empty string. *)
Fixpoint split (sep : ascii) (s : string) : list string :=
  match s with
  | EmptyString => [EmptyString]
  | String c r =>
      if Ascii.eqb c sep then EmptyString :: split sep r
      else match split sep r with
           | w :: ws => String c w :: ws
           | [] => [String c EmptyString]
           end
  end.

(** [s.split(sep, 1)]: cut at the first separator only. *)
Fixpoint split1 (sep : ascii) (s : string) : list string :=
  match s with
  | EmptyString => [EmptyString]
  | String c r =>
      if Ascii.eqb c sep then [EmptyString; r]
      else match split1 sep r with
           | w :: ws => String c w :: ws
           | [] => [String c EmptyString]
           end
  end.

(** [l[i]] for a non-negative constant index. *)
Definition index {A : Type} (l : list A) (i : nat) : exc A :=
  match nth_error l i with
  | Some a => Ret a
  | None => Raise IndexError
  end.

(** [x or d] on an optional string: [None] and [""] are falsy. *)
Definition str_or (x : option string) (d : string) : string :=
  match x with
  | None | Some EmptyString => d
  | Some s => s
  end.

(** [x or d] on an integer: [0] is falsy. *)
Definition int_or (x d : Z) : Z := if (x =? 0)%Z then d else x.

(** ** [int(str)] in base 10

    Optional white space, an optional sign, then decimal digits in which
    single underscores may separate digits; anything else is a
    [ValueError], and so is a literal of more than 4300 digits, leading
    zeros counted, underscores not. *)

Definition is_digit (c : ascii) : bool := ((48 <=? code c) && (code c <=? 57))%N.

Definition is_underscore (c : ascii) : bool := Ascii.eqb c "_".

(** Every underscore stands between two digits, and the literal ends in a
    digit. *)
Fixpoint underscores_ok (prev_digit : bool) (s : string) : bool :=
  match s with
  | EmptyString => prev_digit
  | String c r =>
      if is_underscore c then prev_digit && underscores_ok false r
      else underscores_ok (is_digit c) r
  end.

Fixpoint drop_underscores (s : string) : string :=
  match s with
  | EmptyString => EmptyString
  | String c r =>
      if is_underscore c then drop_underscores r else String c (drop_underscores r)
  end.

(** [sys.int_info.default_max_str_digits] *)
Definition int_max_str_digits : nat := 4300.

Definition digits_value (s : string) : exc Z :=
  if underscores_ok false s then
    let digits := drop_underscores s in
    if (int_max_str_digits <? String.length digits)%nat then Raise ValueError
    else
      match NilZero.uint_of_string digits with
      | Some d => Ret (Z.of_uint d)
      | None => Raise ValueError
      end
  else Raise ValueError.

Definition py_int (s : string) : exc Z :=
  match strip_with int_isspace s with
  | String "+" r => digits_value r
  | String "-" r => v <- digits_value r ;; Ret (- v)
  | t => digits_value t
  end.

(** The decimal text of an integer: the digits without leading zeros, after
    a minus sign when it is negative.  This is [str(n)] for an integer of
    at most 4300 digits. *)
Definition py_str (n : Z) : string := NilZero.string_of_int (Z.to_int n).

(** The number of digits of [str(n)]. *)
Definition decimal_digits (n : Z) : nat := String.length (py_str (Z.abs n)).

(** The integer written with [k] ones. *)
Definition repunit (k : nat) : Z := Z.of_uint (Nat.iter k Decimal.D1 Decimal.Nil).

(** ** [parse_audio_mime_type] *)

(** The returned dict [{"bits_per_sample": ..., "rate": ...}]; both keys are
    always present. *)
Record params : Type := mk_params { bits_per_sample : Z; rate : Z }.

(** One iteration of the [for p in parts] loop on the two locals. *)
Definition parse_part (p : string) (st : params) : exc params :=
  rate' <- (if startswith (lower p) "rate=" then
              try_except (v <- index (split1 "=" p) 1 ;; py_int v)
                         (fun _ => Ret (rate st))
            else Ret (rate st)) ;;
  bits' <- (if startswith p "audio/L" then
              try_except (v <- index (split1 "L" p) 1 ;; py_int v)
                         (fun _ => Ret (bits_per_sample st))
            else Ret (bits_per_sample st)) ;;
  Ret (mk_params bits' rate').

Fixpoint parse_parts (parts : list string) (st : params) : exc params :=
  match parts with
  | [] => Ret st
  | p :: ps => st' <- parse_part p st ;; parse_parts ps st'
  end.

(** The [parts] list: [[p.strip() for p in (mime_type or "").split(";")]]. *)
Definition mime_parts (mime_type : option string) : list string :=
  map strip (split ";" (str_or mime_type "")).

Definition default_params : params := mk_params 16 24000.

Definition parse_audio_mime_type (mime_type : option string) : exc params :=
  parse_parts (mime_parts mime_type) default_params.

(** ** [struct.pack]

    The fragment of the format language the encoder uses: the byte-order
    mark [<] (little-endian, standard sizes, no padding), [ns] (a byte
    string of exactly [n] bytes, cut or padded with zero bytes), [I] and
    [H] (unsigned integers on 4 and 2 bytes), with an optional repeat
    count before [I] and [H].  An integer outside the range of its field
    is a [struct.error]. *)

Inductive field : Type :=
| F_s (n : nat)
| F_I
| F_H.

Inductive arg : Type :=
| A_bytes (b : list byte)
| A_int (v : Z).

Definition count_or_1 (count : option nat) : nat :=
  match count with
  | Some n => n
  | None => 1%nat
  end.

Definition digit_nat (c : ascii) : nat := (nat_of_ascii c - 48)%nat.

Fixpoint parse_fields (count : option nat) (s : string) : option (list field) :=
  match s with
  | EmptyString =>
      match count with
      | None => Some []
      | Some _ => None
      end
  | String c r =>
      if is_digit c then
        parse_fields
          (Some (10 * match count with Some n => n | None => 0 end + digit_nat c)%nat) r
      else if Ascii.eqb c "s" then
        option_map (cons (F_s (count_or_1 count))) (parse_fields None r)
      else if Ascii.eqb c "I" then
        option_map (List.app (repeat F_I (count_or_1 count))) (parse_fields None r)
      else if Ascii.eqb c "H" then
        option_map (List.app (repeat F_H (count_or_1 count))) (parse_fields None r)
      else None
  end.

Definition parse_format (fmt : string) : option (list field) :=
  match fmt with
  | String "<" r => parse_fields None r
  | _ => None
  end.

Definition byte_of_Z (v : Z) : byte :=
  match Byte.of_N (Z.to_N (v mod 256)) with
  | Some b => b
  | None => x00
  end.

(** The [n] low-order bytes of [v], least significant first. *)
Fixpoint le_bytes (n : nat) (v : Z) : list byte :=
  match n with
  | O => []
  | S k => byte_of_Z v :: le_bytes k (v / 256)
  end.

(** The unsigned integers that fit on [n] bytes. *)
Definition in_range (n : nat) (v : Z) : bool :=
  ((0 <=? v) && (v <? 256 ^ Z.of_nat n))%Z.

Definition pack_uint (n : nat) (v : Z) : exc (list byte) :=
  if in_range n v then Ret (le_bytes n v) else Raise StructError.

Definition pack_field (f : field) (a : arg) : exc (list byte) :=
  match f, a with
  | F_s n, A_bytes s => Ret (firstn n s ++ repeat x00 (n - List.length s))%list
  | F_I, A_int v => pack_uint 4 v
  | F_H, A_int v => pack_uint 2 v
  | _, _ => Raise StructError
  end.

Fixpoint pack_fields (fs : list field) (args : list arg) : exc (list byte) :=
  match fs, args with
  | [], [] => Ret []
  | f :: fs', a :: args' =>
      x <- pack_field f a ;;
      xs <- pack_fields fs' args' ;;
      Ret (x ++ xs)%list
  | _, _ => Raise StructError
  end.

Definition struct_pack (fmt : string) (args : list arg) : exc (list byte) :=
  match parse_format fmt with
  | Some fs => pack_fields fs args
  | None => Raise StructError
  end.

(** A bytes literal [b"..."]. *)
Definition bytes_lit (s : string) : list byte := list_byte_of_string s.

(** ** [convert_to_wav] *)

(** The header [convert_to_wav] builds for a payload of [data_size] bytes:
    the body of the function but for [len(audio_data)] and the final
    concatenation. *)
Definition wav_header (data_size : Z) (mime_type : option string) : exc (list byte) :=
  params <- parse_audio_mime_type mime_type ;;
  let bits_per_sample := int_or (bits_per_sample params) 16 in
  let sample_rate := int_or (rate params) 24000 in
  let num_channels := 1 in
  let bytes_per_sample := bits_per_sample / 8 in
  let block_align := num_channels * bytes_per_sample in
  let byte_rate := sample_rate * block_align in
  let chunk_size := 36 + data_size in
  struct_pack "<4sI4s4sIHHIIHH4sI"
    [ A_bytes (bytes_lit "RIFF");
      A_int chunk_size;
      A_bytes (bytes_lit "WAVE");
      A_bytes (bytes_lit "fmt ");
      A_int 16;
      A_int 1;
      A_int num_channels;
      A_int sample_rate;
      A_int byte_rate;
      A_int block_align;
      A_int bits_per_sample;
      A_bytes (bytes_lit "data");
      A_int data_size ].

Definition convert_to_wav (audio_data : list byte) (mime_type : option string)
  : exc (list byte) :=
  header <- wav_header (Z.of_nat (List.length audio_data)) mime_type ;;
  Ret (header ++ audio_data)%list.

(** ** [text_to_speech], from the collected chunks to the saved file *)

(** What the call has once streaming is over and the payload is chosen: no
    audio, the name and the content of the file to write, or the failure
    the enclosing [except] reports. *)
Inductive outcome : Type :=
| NoAudio
| Saved (filename : string) (payload : list byte)
| Failed (e : exn).

Section Orchestration.

(** [mimetypes.guess_extension]: a table of the interpreter and of the
    host, not part of the repository. *)
Variable guess_extension : string -> option string.

(** [uuid.uuid4().hex] of the call. *)
Variable uuid_hex : string.

Definition truthy (x : option string) : bool :=
  match x with
  | None | Some EmptyString => false
  | Some _ => true
  end.

Definition output_ext (mime_type : option string) : string :=
  str_or (guess_extension (str_or mime_type "")) ".wav".

Definition output_payload (raw : list byte) (mime_type : option string)
  : exc (list byte) :=
  let ext := output_ext mime_type in
  if lower ext =? ".wav" then
    if truthy mime_type && startswith (lower (str_or mime_type "")) "audio/wav"
    then Ret raw
    else convert_to_wav raw (Some (str_or mime_type "audio/L16;rate=24000"))
  else
    Ret raw.

Definition text_to_speech_save (audio_chunks : list (list byte))
    (mime_type : option string) : outcome :=
  match audio_chunks with
  | [] => NoAudio
  | _ =>
      let raw := List.concat audio_chunks in
      let ext := output_ext mime_type in
      match output_payload raw mime_type with
      | Ret payload => Saved ("tts_" ++ uuid_hex ++ ext) payload
      | Raise e => Failed e
      end
  end.

End Orchestration.

(** A fragment of CPython's default table, for concrete runs. *)
Definition guess_extension_default (t : string) : option string :=
  let t := lower t in
  if t =? "audio/mpeg" then Some ".mp3"
  else if t =? "audio/x-wav" then Some ".wav"
  else if t =? "audio/basic" then Some ".au"
  else None.

(** ** Vocabulary of the statements *)

(** The value a part assigns to [rate], if it assigns one: the guard and
    the body of the first [try] of the loop. *)
Definition rate_of_part (p : string) : option Z :=
  if startswith (lower p) "rate=" then
    match v <- index (split1 "=" p) 1 ;; py_int v with
    | Ret v => Some v
    | Raise _ => None
    end
  else None.

(** The value a part assigns to [bits_per_sample], if it assigns one. *)
Definition bits_of_part (p : string) : option Z :=
  if startswith p "audio/L" then
    match v <- index (split1 "L" p) 1 ;; py_int v with
    | Ret v => Some v
    | Raise _ => None
    end
  else None.

Definition or_else (o : option Z) (d : Z) : Z :=
  match o with
  | Some v => v
  | None => d
  end.

(** The last value the parts assign through [f], [d] when none does. *)
Definition last_set (f : string -> option Z) (parts : list string) (d : Z) : Z :=
  fold_left (fun acc p => or_else (f p) acc) parts d.

(** No two parts assign different values through [f]. *)
Definition agree (f : string -> option Z) (parts : list string) : Prop :=
  forall p q v w, In p parts -> In q parts -> f p = Some v -> f q = Some w -> v = w.

Fixpoint all_chars (P : ascii -> bool) (s : string) : bool :=
  match s with
  | EmptyString => true
  | String c r => P c && all_chars P r
  end.

(** Neither white space nor the separator [;]: a string of such characters
    is its own single part. *)
Definition plain (c : ascii) : bool := negb (isspace c) && negb (Ascii.eqb c ";").

Definition is_lower_letter (c : ascii) : bool := ((97 <=? code c) && (code c <=? 122))%N.

(** The unsigned integer a little-endian byte string denotes. *)
Fixpoint le_value (bs : list byte) : Z :=
  match bs with
  | [] => 0
  | x :: r => Z.of_N (Byte.to_N x) + 256 * le_value r
  end.

(** [l[off : off + n]] *)
Definition slice {A : Type} (off n : nat) (l : list A) : list A :=
  firstn n (skipn off l).

(** The values [convert_to_wav] works with once zero has given way to the
    default. *)
Definition eff_bits (p : params) : Z := int_or (bits_per_sample p) 16.
Definition eff_rate (p : params) : Z := int_or (rate p) 24000.

(** The header as the specification lays it out (section 4.2, step 7) for
    a payload of [data_size] bytes, mono. *)
Definition wav_layout (data_size bits rate_hz : Z) : list byte :=
  (bytes_lit "RIFF" ++ le_bytes 4 (36 + data_size) ++ bytes_lit "WAVE"
   ++ bytes_lit "fmt " ++ le_bytes 4 16 ++ le_bytes 2 1 ++ le_bytes 2 1
   ++ le_bytes 4 rate_hz
   ++ le_bytes 4 (rate_hz * (bits / 8))
   ++ le_bytes 2 (bits / 8)
   ++ le_bytes 2 bits
   ++ bytes_lit "data" ++ le_bytes 4 data_size)%list.

(** Every integer of the header lies in the range of its field. *)
Definition fits (data_size : Z) (p : params) : bool :=
  in_range 4 (36 + data_size)
  && in_range 4 (eff_rate p)
  && in_range 4 (eff_rate p * (eff_bits p / 8))
  && in_range 2 (eff_bits p / 8)
  && in_range 2 (eff_bits p)
  && in_range 4 data_size.

Definition header_bytes (data_size : Z) (p : params) : list byte :=
  wav_layout data_size (eff_bits p) (eff_rate p).

(** ** [text_to_speech]: the streamed response

    What the loop over [generate_content_stream] reads of a chunk.  An
    attribute that is missing or [None] is [None]; the objects themselves
    are truthy, lists and byte strings are truthy when not empty. *)

Record blob : Type := mk_blob {
  blob_mime_type : option string;
  blob_data : option (list byte) }.

Record part : Type := mk_part { part_inline_data : option blob }.

Record content : Type := mk_content { content_parts : option (list part) }.

Record candidate : Type := mk_candidate { candidate_content : option content }.

Record chunk : Type := mk_chunk { chunk_candidates : option (list candidate) }.

(** [x or y] where [x] is an optional string and [y] the current value. *)
Definition str_or_opt (x y : option string) : option string :=
  match x with
  | None | Some EmptyString => y
  | Some _ => x
  end.

(** One iteration of the loop on [(audio_chunks, mime_type)]. *)
Definition collect_chunk (st : list (list byte) * option string) (c : chunk)
  : list (list byte) * option string :=
  match chunk_candidates c with
  | None | Some [] => st
  | Some (c0 :: _) =>
      match candidate_content c0 with
      | None => st
      | Some ct =>
          match content_parts ct with
          | None | Some [] => st
          | Some (part0 :: _) =>
              match part_inline_data part0 with
              | None => st
              | Some bl =>
                  match blob_data bl with
                  | None | Some [] => st
                  | Some d =>
                      ((fst st ++ [d])%list, str_or_opt (blob_mime_type bl) (snd st))
                  end
              end
          end
      end
  end.

Definition collect (chunks : list chunk) : list (list byte) * option string :=
  fold_left collect_chunk chunks ([], None).

(** The inline data the loop looks at in a chunk, if the guards let it
    through: the first part of the first candidate. *)
Definition chunk_blob (c : chunk) : option blob :=
  match chunk_candidates c with
  | Some (c0 :: _) =>
      match candidate_content c0 with
      | Some ct =>
          match content_parts ct with
          | Some (part0 :: _) => part_inline_data part0
          | _ => None
          end
      | None => None
      end
  | _ => None
  end.

(** Its bytes, empty when there are none. *)
Definition chunk_bytes (c : chunk) : list byte :=
  match chunk_blob c with
  | Some bl => match blob_data bl with Some d => d | None => [] end
  | None => []
  end.

(** The MIME type a chunk reports with audio, if it reports one. *)
Definition chunk_mime (c : chunk) : option string :=
  match chunk_blob c with
  | Some bl =>
      match blob_data bl with
      | None | Some [] => None
      | Some _ => str_or_opt (blob_mime_type bl) None
      end
  | None => None
  end.

(** ** [text_to_speech], the whole call

    The returned dict, and the file the call leaves in the target
    directory.  The environment is explicit: the API key, what the provider
    streams (or the text of the exception raised while the request is built
    or the stream is read), the MIME table, the identifier, and what the
    file system does with the payload.  [load_dotenv()] is a call into a
    library outside the repository; it is taken to return. *)

Record tts_result : Type := mk_tts_result {
  tts_success : bool;
  tts_message : string;
  tts_filename : option string }.

Definition tts_failure (message : string) : tts_result :=
  mk_tts_result false message None.

(** How saving fails, with the text of the exception.  [os.makedirs] or
    [open] raises and no file is created; or the file is created and
    [f.write] (or closing the file) raises once [written] bytes of the
    payload have reached it: the [with] statement closes the file and the
    exception goes to the enclosing [except], which removes nothing. *)
Inductive fs_failure : Type :=
| FsRefused (msg : string)
| FsBroken (msg : string) (written : nat).

Section TextToSpeech.

Variable api_key : option string.
Variable stream : list chunk + string.
Variable guess_extension : string -> option string.
Variable uuid_hex : string.

(** The failure of the file system during the call, [None] when every
    operation succeeds. *)
Variable fs_error : option fs_failure.

(** [str(e)] for the exceptions the code modelled here raises. *)
Variable describe : exn -> string.

(** The result, and the file left in the target directory: its name and
    its content. *)
Definition text_to_speech : tts_result * option (string * list byte) :=
  if truthy api_key then
    match stream with
    | inr msg => (tts_failure ("Error during TTS: " ++ msg), None)
    | inl chunks =>
        let (audio_chunks, mime_type) := collect chunks in
        match text_to_speech_save guess_extension uuid_hex audio_chunks mime_type with
        | NoAudio => (tts_failure "No audio data received from model.", None)
        | Failed e => (tts_failure ("Error during TTS: " ++ describe e), None)
        | Saved filename payload =>
            match fs_error with
            | Some (FsRefused msg) =>
                (tts_failure ("Error during TTS: " ++ msg), None)
            | Some (FsBroken msg written) =>
                (tts_failure ("Error during TTS: " ++ msg),
                 Some (filename, firstn written payload))
            | None =>
                (mk_tts_result true "Speech synthesized successfully." (Some filename),
                 Some (filename, payload))
            end
        end
    end
  else (tts_failure "Missing GOOGLE_API_KEY in environment.", None).

(** ** [main.py]: the [/text_to_speach] endpoint *)

Inductive tts_body : Type :=
| TtsCreated (message filename download_url : string)
| TtsError (r : tts_result).

(** [request.url_for("public", path=filename)], [None] when it raises. *)
Variable url_for : string -> option string.

(** The function [text_to_speach_endpoint], as FastAPI calls it once the
    form has been validated; [text] and [voice_name] go to the provider,
    whose answer is [stream]. *)
Definition text_to_speach_endpoint : Z * tts_body :=
  let result := fst text_to_speech in
  if tts_success result && truthy (tts_filename result) then
    let filename := str_or (tts_filename result) "" in
    let download_url :=
      match url_for filename with
      | Some u => u
      | None => "/public/" ++ filename
      end in
    (200, TtsCreated (tts_message result) filename download_url)
  else (500, TtsError result).

End TextToSpeech.

(** ** [main.py]: what a route answers to a form

    FastAPI validates the form against the signature of the route function
    before it calls it.  A field declared [Form(...)] is required: when it
    is not sent, or sent empty, the answer is 422 and the function is not
    called.  A field with a default takes the default when it is not sent
    or sent empty.  A field declared [int] whose text is not an integer is
    answered 422 as well. *)

Inductive answer (body : Type) : Type :=
| Unprocessable
| Handled (response : Z * body).

Arguments Unprocessable {body}.
Arguments Handled {body} response.

Definition status {body : Type} (a : answer body) : Z :=
  match a with
  | Unprocessable => 422
  | Handled response => fst response
  end.

(** A text field of the form: [None] when the field was not sent. *)
Definition required_str (x : option string) : option string :=
  if truthy x then x else None.

(** An [int] field of the form, as FastAPI reads it: not sent or sent
    empty, sent with a text that is not an integer, or an integer. *)
Inductive int_field : Type :=
| IntMissing
| IntMalformed
| IntValue (v : Z).

Definition required_int (x : int_field) : option Z :=
  match x with
  | IntValue v => Some v
  | IntMissing | IntMalformed => None
  end.

Definition optional_int (x : int_field) (default : Z) : option Z :=
  match x with
  | IntValue v => Some v
  | IntMissing => Some default
  | IntMalformed => None
  end.

Section TextToSpeechRoute.

Variable api_key : option string.

(** The provider: what it streams for a text and a voice. *)
Variable provider : string -> string -> list chunk + string.
Variable guess_extension : string -> option string.
Variable uuid_hex : string.
Variable fs_error : option fs_failure.
Variable describe : exn -> string.
Variable url_for : string -> option string.

(** [POST /text_to_speach]: the answer, and the file left in [public/]. *)
Definition text_to_speach_route (text voice_name : option string)
  : answer tts_body * option (string * list byte) :=
  match required_str text, required_str voice_name with
  | Some text, Some voice_name =>
      let stream := provider text voice_name in
      (Handled (text_to_speach_endpoint api_key stream guess_extension uuid_hex
                  fs_error describe url_for),
       snd (text_to_speech api_key stream guess_extension uuid_hex fs_error describe))
  | _, _ => (Unprocessable, None)
  end.

End TextToSpeechRoute.

(** ** [main.py]: the constraints of [/generate_plan] *)

Definition blank (s : string) : bool := strip s =? "".

Definition constraints_list (constraints : option string) : option (list string) :=
  if truthy constraints then
    let parts :=
      map strip (filter (fun s => negb (blank s)) (split "," (str_or constraints ""))) in
    match parts with
    | [] => None
    | _ => Some parts
    end
  else None.

(** [sep.join(l)] *)
Fixpoint join (sep : string) (l : list string) : string :=
  match l with
  | [] => ""
  | [x] => x
  | x :: r => x ++ sep ++ join sep r
  end.

(** [x in l] for strings. *)
Definition str_in (x : string) (l : list string) : bool := existsb (String.eqb x) l.

(** ** [generate_plan.py]: the guidelines for an age *)

Definition nl : string := String (ascii_of_nat 10) "".

Section Guidelines.

(** [googlesearch.search]: the results it yields, and the text of the
    exception that ends the iteration when one does. *)
Variable search : string -> Z -> list string * option string.

Definition _search_speech_therapy_resources (query : string) (num_results : Z)
  : list string :=
  match search query num_results with
  | (results, None) => results
  | (_, Some _) => []
  end.

Definition basic_guidelines (age : Z) : option string :=
  if (age =? 2)%Z then Some "Age 2: Basic words, simple combinations, family understanding"
  else if (age =? 3)%Z then Some "Age 3: Vocabulary growth, short sentences, clearer speech"
  else if (age =? 4)%Z then Some "Age 4: Complex sentences, storytelling, most sounds clear"
  else if (age =? 5)%Z then Some "Age 5: Advanced grammar, abstract concepts, reading readiness"
  else if (age =? 6)%Z then
    Some "Age 6: Mature speech patterns, reading skills, complex communication"
  else if (age =? 7)%Z then
    Some "Age 7: Fluent reading, detailed narratives, advanced vocabulary"
  else if (age =? 8)%Z then
    Some "Age 8: Adult-like speech, complex reasoning, academic language"
  else None.

Definition _get_age_appropriate_guidelines (age : Z) : string :=
  let search_query :=
    "speech development milestones age " ++ py_str age
    ++ " years children normal development" in
  let search_results := _search_speech_therapy_resources search_query 5 in
  match search_results with
  | _ :: _ =>
      "Current research for age " ++ py_str age ++ " speech development:" ++ nl
      ++ join nl (firstn 3 search_results)
  | [] =>
      match basic_guidelines age with
      | Some g => g
      | None => "Age " ++ py_str age ++ ": Advanced communication development"
      end
  end.

(** ** [generate_plan.py]: [generate_speech_therapy_plan]

    The variables handed to the prompt, but for the format instructions of
    the output parser; the chain of prompt, model and parser is a
    parameter. *)

Record plan_vars : Type := mk_plan_vars {
  v_child_age : Z;
  v_delay_level : string;
  v_language : string;
  v_daily_time_minutes : Z;
  v_plan_duration_weeks : Z;
  v_words_child_can_speak : string;
  v_age_guidelines : string;
  v_additional_info : string;
  v_search_context : string }.

Variable plan : Type.

Record plan_result : Type := mk_plan_result {
  plan_success : bool;
  plan_message : string;
  plan_plan : option plan }.

(** [os.getenv("DEEPSEEK_API_KEY")] *)
Variable deepseek_api_key : option string.

(** Building the model and [chain.invoke({})]: the parsed plan, or the text
    of the exception. *)
Variable invoke : plan_vars -> plan + string.

Definition generate_speech_therapy_plan (child_age : Z) (delay_level language : string)
    (daily_time_minutes plan_duration_weeks : Z)
    (words_child_can_speak additional_info : string) : plan_result :=
  let age_guidelines := _get_age_appropriate_guidelines child_age in
  let search_query :=
    "speech therapy " ++ delay_level ++ " delay age " ++ py_str child_age
    ++ " " ++ language in
  let search_results := _search_speech_therapy_resources search_query 3 in
  let search_context :=
    match search_results with
    | _ :: _ => join nl (firstn 3 search_results)
    | [] => "No additional resources found"
    end in
  let vars :=
    mk_plan_vars child_age delay_level language daily_time_minutes plan_duration_weeks
      (str_or (Some words_child_can_speak) "None specified")
      age_guidelines additional_info search_context in
  if truthy deepseek_api_key then
    match invoke vars with
    | inl result =>
        mk_plan_result true "Speech therapy plan generated successfully." (Some result)
    | inr msg =>
        mk_plan_result false ("Failed to generate speech therapy plan: " ++ msg) None
    end
  else
    mk_plan_result false
      ("Failed to generate speech therapy plan: "
       ++ "Missing DEEPSEEK_API_KEY in .env for DeepSeek.") None.

(** ** [main.py]: the [/generate_speech_plan] endpoint *)

Definition delay_levels : list string := ["slight delay"; "medium delay"; "severe delay"].

Inductive plan_body : Type :=
| PlanRejected (message : string)
| PlanResult (r : plan_result).

(** The function [generate_speech_plan_endpoint], as FastAPI calls it once
    the form has been validated. *)
Definition generate_speech_plan_endpoint (child_age : Z) (delay_level language : string)
    (daily_time_minutes plan_duration_weeks : Z)
    (words_child_can_speak additional_info : string) : Z * plan_body :=
  if ((child_age <? 2) || (child_age >? 8))%Z then
    (400, PlanRejected "Child age must be between 2 and 8 years")
  else if negb (str_in (lower delay_level) delay_levels) then
    (400, PlanRejected
            "Delay level must be 'slight delay', 'medium delay', or 'severe delay'")
  else if ((plan_duration_weeks <? 1) || (plan_duration_weeks >? 12))%Z then
    (400, PlanRejected "Plan duration must be between 1 and 12 weeks")
  else
    let result :=
      generate_speech_therapy_plan child_age (lower delay_level) language
        daily_time_minutes plan_duration_weeks words_child_can_speak additional_info in
    ((if plan_success result then 200 else 500), PlanResult result).

(** [POST /generate_speech_plan]: [child_age] and [delay_level] are
    required, the other fields have defaults. *)
Definition generate_speech_plan_route (child_age : int_field)
    (delay_level language : option string)
    (daily_time_minutes plan_duration_weeks : int_field)
    (words_child_can_speak additional_info : option string) : answer plan_body :=
  match required_int child_age, required_str delay_level,
        optional_int daily_time_minutes 15, optional_int plan_duration_weeks 4 with
  | Some age, Some delay, Some daily, Some weeks =>
      Handled (generate_speech_plan_endpoint age delay (str_or language "English")
                 daily weeks (str_or words_child_can_speak "")
                 (str_or additional_info ""))
  | _, _, _, _ => Unprocessable
  end.

End Guidelines.

(** ** [streamlit.py]: what the dashboard checks before it posts *)

Definition dashboard_accepts (child_age : Z) (delay_level : string)
    (plan_duration_weeks : Z) : bool :=
  if ((child_age <? 2) || (child_age >? 8))%Z then false
  else if negb (str_in delay_level delay_levels) then false
  else if ((plan_duration_weeks <? 1) || (plan_duration_weeks >? 12))%Z then false
  else true.

(** ** [streamlit.py]: the base URL and the audio format *)

Definition is_slash (c : ascii) : bool := Ascii.eqb c "/".

(** [s.rstrip("/")] *)
Definition rstrip_slash (s : string) : string := rstrip_with is_slash s.

Definition fallback_api_url : string :=
  "https://notq-python-adb7dsexamdkh0gt.germanywestcentral-01.azurewebsites.net".

(** The base URL after the sidebar: the typed text, the default when it is
    empty, without trailing slashes. *)
Definition api_url_of (typed : string) : string :=
  rstrip_slash (str_or (Some typed) fallback_api_url).

(** [s.rsplit(sep, 1)]: cut at the last separator only. *)
Fixpoint rsplit1 (sep : ascii) (s : string) : list string :=
  match s with
  | EmptyString => [EmptyString]
  | String c r =>
      match rsplit1 sep r with
      | [before; after] => [String c before; after]
      | _ => if Ascii.eqb c sep then [EmptyString; r] else [s]
      end
  end.

(** [sep in s] for a one-character [sep]. *)
Fixpoint contains (sep : ascii) (s : string) : bool :=
  match s with
  | EmptyString => false
  | String c r => Ascii.eqb c sep || contains sep r
  end.

(** The URL the dashboard fetches: a path is put after the base URL. *)
Definition absolute_url (api_url : string) (download_url : option string) : string :=
  let download_url := str_or download_url "" in
  if startswith download_url "/" then api_url ++ download_url else download_url.

(** The [format] given to [st.audio], [None] when the extension is not one
    of the five. *)
Definition audio_format (download_url : string) : option string :=
  if contains "." download_url then
    let ext := lower (List.last (rsplit1 "." download_url) "") in
    if str_in ext ["wav"; "mp3"; "ogg"; "webm"; "m4a"] then
      Some ("audio/" ++ (if ext =? "wav" then "x-wav" else ext))
    else None
  else None.

(** ** Vocabulary of the further statements *)

(** A byte string that is not empty. *)
Definition nonempty (d : list byte) : bool :=
  match d with
  | [] => false
  | _ => true
  end.

(** The MIME type after one more chunk. *)
Definition last_mime (acc : option string) (c : chunk) : option string :=
  match chunk_mime c with
  | Some m => Some m
  | None => acc
  end.

(** A string without a comma. *)
Definition comma_free (x : string) : bool :=
  all_chars (fun c => negb (Ascii.eqb c ",")) x.

(** What the prompt variables of a request that passed the checks satisfy. *)
Definition validated (v : plan_vars) : Prop :=
  2 <= v_child_age v <= 8 /\ In (v_delay_level v) delay_levels /\
  1 <= v_plan_duration_weeks v <= 12 /\ v_words_child_can_speak v <> "".

(** * Properties *)

(** Case analysis on the 256 characters. *)
Ltac by_cases_on_ascii c :=
  destruct c as [[] [] [] [] [] [] [] []]; try discriminate; try reflexivity.

(** ** The exception monad *)

Lemma returns_Ret {A : Type} (a : A) : returns (Ret a).
Proof. exists a; reflexivity. Qed.

Lemma not_returns_Raise {A : Type} (e : exn) : ~ returns (@Raise A e).
Proof. intros [a H]; discriminate H. Qed.

Lemma try_except_returns {A : Type} (body : exc A) (d : A) :
  try_except body (fun _ => Ret d) =
  Ret (match body with Ret a => a | Raise _ => d end).
Proof. destruct body; reflexivity. Qed.

(** ** The loop of the parser *)

Lemma parse_part_eq (p : string) (st : params) :
  parse_part p st =
  Ret (mk_params (or_else (bits_of_part p) (bits_per_sample st))
                 (or_else (rate_of_part p) (rate st))).
Proof.
  unfold parse_part, bits_of_part, rate_of_part.
  destruct (startswith (lower p) "rate=");
    destruct (startswith p "audio/L");
    rewrite ?try_except_returns; cbn [bind];
    repeat match goal with
           | |- context [match ?m with Ret _ => _ | Raise _ => _ end] => destruct m
           end; reflexivity.
Qed.

Lemma parse_parts_eq (parts : list string) (st : params) :
  parse_parts parts st =
  Ret (mk_params (last_set bits_of_part parts (bits_per_sample st))
                 (last_set rate_of_part parts (rate st))).
Proof.
  revert st; induction parts as [|p ps IH]; intros st.
  - destruct st; reflexivity.
  - cbn [parse_parts]. rewrite parse_part_eq. cbn [bind]. rewrite IH. reflexivity.
Qed.

Lemma parse_eq (mime_type : option string) :
  parse_audio_mime_type mime_type =
  Ret (mk_params (last_set bits_of_part (mime_parts mime_type) 16)
                 (last_set rate_of_part (mime_parts mime_type) 24000)).
Proof. unfold parse_audio_mime_type. rewrite parse_parts_eq. reflexivity. Qed.

Lemma last_set_app f l1 l2 d :
  last_set f (l1 ++ l2) d = last_set f l2 (last_set f l1 d).
Proof. unfold last_set. apply fold_left_app. Qed.

Lemma last_set_none f l d :
  (forall q, In q l -> f q = None) -> last_set f l d = d.
Proof.
  revert d; induction l as [|p ps IH]; intros d H; [reflexivity|].
  cbn. rewrite (H p (or_introl eq_refl)). cbn. apply IH.
  intros q Hq; apply H; right; exact Hq.
Qed.

Lemma last_set_last f l1 p l2 d v :
  f p = Some v -> (forall q, In q l2 -> f q = None) ->
  last_set f (l1 ++ p :: l2) d = v.
Proof.
  intros Hp Hl2. rewrite last_set_app. cbn. rewrite Hp. cbn.
  apply last_set_none; exact Hl2.
Qed.

(** The result is the default or a value some part assigns. *)
Lemma last_set_cases f l d :
  last_set f l d = d \/ exists p, In p l /\ f p = Some (last_set f l d).
Proof.
  revert d; induction l as [|p ps IH]; intros d; [left; reflexivity|].
  cbn. destruct (IH (or_else (f p) d)) as [H | (q & Hq & Hv)].
  - unfold last_set in H |- *. rewrite H.
    destruct (f p) as [v|] eqn:Hp; cbn; [right; exists p; auto | left; reflexivity].
  - right; exists q; split; [right; exact Hq | exact Hv].
Qed.

Lemma last_set_some f l d p v :
  In p l -> f p = Some v -> exists q, In q l /\ f q = Some (last_set f l d).
Proof.
  revert d; induction l as [|a l IH]; intros d Hin Hp; [contradiction|].
  cbn. destruct Hin as [-> | Hin].
  - rewrite Hp; cbn.
    destruct (last_set_cases f l v) as [H | (q & Hq & Hv)].
    + exists p; split; [left; reflexivity|].
      unfold last_set in H; rewrite H; exact Hp.
    + exists q; split; [right; exact Hq | exact Hv].
  - destruct (IH (or_else (f a) d) Hin Hp) as (q & Hq & Hv).
    exists q; split; [right; exact Hq | exact Hv].
Qed.

Lemma last_set_agree f l d p v :
  agree f l -> In p l -> f p = Some v -> last_set f l d = v.
Proof.
  intros Hag Hin Hp.
  destruct (last_set_some f l d p v Hin Hp) as (q & Hq & Hv).
  exact (Hag q p _ _ Hq Hin Hv Hp).
Qed.

Lemma all_none_dec f (l : list string) :
  (forall q, In q l -> f q = None) \/ exists p (v : Z), In p l /\ f p = Some v.
Proof.
  induction l as [|a l [IH | (p & v & Hp & Hv)]].
  - left; intros q [].
  - destruct (f a) as [v|] eqn:Ha.
    + right; exists a, v; split; [left; reflexivity | exact Ha].
    + left; intros q [<- | Hq]; [exact Ha | apply IH; exact Hq].
  - right; exists p, v; split; [right; exact Hp | exact Hv].
Qed.

Lemma last_set_perm f l l' d :
  Permutation l l' -> agree f l -> last_set f l d = last_set f l' d.
Proof.
  intros Hperm Hag.
  assert (Hag' : agree f l').
  { intros p q v w Hp Hq.
    apply Hag; apply (Permutation_in _ (Permutation_sym Hperm)); assumption. }
  destruct (all_none_dec f l) as [Hnone | (p & v & Hp & Hv)].
  - rewrite (last_set_none f l d Hnone). symmetry; apply last_set_none.
    intros q Hq; apply Hnone.
    apply (Permutation_in _ (Permutation_sym Hperm)); exact Hq.
  - rewrite (last_set_agree f l d p v Hag Hp Hv).
    symmetry; apply (last_set_agree f l' d p v Hag'); [|exact Hv].
    apply (Permutation_in _ Hperm); exact Hp.
Qed.

Lemma mime_parts_Some (m : string) : mime_parts (Some m) = map strip (split ";" m).
Proof. destruct m; reflexivity. Qed.

Lemma rate_of_part_failed (q : string) (e : exn) :
  (v <- index (split1 "=" q) 1 ;; py_int v) = Raise e -> rate_of_part q = None.
Proof.
  intros H. unfold rate_of_part. rewrite H.
  destruct (startswith (lower q) "rate="); reflexivity.
Qed.

Lemma bits_of_part_failed (q : string) (e : exn) :
  (v <- index (split1 "L" q) 1 ;; py_int v) = Raise e -> bits_of_part q = None.
Proof.
  intros H. unfold bits_of_part. rewrite H.
  destruct (startswith q "audio/L"); reflexivity.
Qed.

Lemma parse_returns (mime_type : option string) :
  returns (parse_audio_mime_type mime_type).
Proof. eexists; apply parse_eq. Qed.

(** ** The parser *)

(** C3.  [parse_audio_mime_type] never raises: on every input, [None]
    included, it returns a result, and a field no part assigns (the part
    is absent, or its text is not an integer literal: [rate_of_part],
    [bits_of_part] give [None]) holds its default.  In particular [""],
    [None] and ["audio/Lxx;rate=oops"] give 16 and 24000. *)
Theorem parse_never_raises :
  (forall mime_type, exists p,
      parse_audio_mime_type mime_type = Ret p /\
      ((forall s, In s (mime_parts mime_type) -> rate_of_part s = None) ->
       rate p = 24000) /\
      ((forall s, In s (mime_parts mime_type) -> bits_of_part s = None) ->
       bits_per_sample p = 16)) /\
  parse_audio_mime_type (Some "") = Ret (mk_params 16 24000) /\
  parse_audio_mime_type None = Ret (mk_params 16 24000) /\
  parse_audio_mime_type (Some "audio/Lxx;rate=oops") = Ret (mk_params 16 24000).
Proof.
  split; [|repeat split; reflexivity].
  intros mime_type. eexists. split; [apply parse_eq|].
  cbn [rate bits_per_sample]. split; intros H; apply last_set_none; exact H.
Qed.

Lemma parse_never_raises_witness :
  exists p, parse_audio_mime_type (Some "audio/Lxx;rate=oops") = Ret p /\
            rate p = 24000 /\ bits_per_sample p = 16.
Proof.
  destruct parse_never_raises as [H _].
  destruct (H (Some "audio/Lxx;rate=oops")) as (p & Hp & Hr & Hb).
  exists p. split; [exact Hp|].
  split; [apply Hr | apply Hb];
    intros s [<- | [<- | []]]; reflexivity.
Defined.

(** C10.  When several parts assign the same parameter the last one that
    parses wins; a later part that matches the pattern but whose text
    [int] rejects assigns nothing and leaves the earlier value in place. *)
Theorem last_successful_part_wins :
  (forall mime_type before p after v,
      mime_parts mime_type = (before ++ p :: after)%list ->
      rate_of_part p = Some v ->
      (forall q, In q after -> rate_of_part q = None) ->
      exists r, parse_audio_mime_type mime_type = Ret r /\ rate r = v) /\
  (forall mime_type before p after v,
      mime_parts mime_type = (before ++ p :: after)%list ->
      bits_of_part p = Some v ->
      (forall q, In q after -> bits_of_part q = None) ->
      exists r, parse_audio_mime_type mime_type = Ret r /\ bits_per_sample r = v) /\
  (forall q e, startswith (lower q) "rate=" = true ->
               (v <- index (split1 "=" q) 1 ;; py_int v) = Raise e ->
               rate_of_part q = None) /\
  (forall q e, startswith q "audio/L" = true ->
               (v <- index (split1 "L" q) 1 ;; py_int v) = Raise e ->
               bits_of_part q = None) /\
  parse_audio_mime_type (Some "rate=8000;rate=16000") = Ret (mk_params 16 16000) /\
  parse_audio_mime_type (Some "rate=8000;rate=junk") = Ret (mk_params 16 8000).
Proof.
  split; [|split; [|split; [|split; [|split; reflexivity]]]].
  - intros mime_type before p after v Hparts Hp Hafter.
    eexists; split; [apply parse_eq|]. cbn [rate]. rewrite Hparts.
    apply last_set_last; assumption.
  - intros mime_type before p after v Hparts Hp Hafter.
    eexists; split; [apply parse_eq|]. cbn [bits_per_sample]. rewrite Hparts.
    apply last_set_last; assumption.
  - intros q e _ H. exact (rate_of_part_failed q e H).
  - intros q e _ H. exact (bits_of_part_failed q e H).
Qed.

Lemma last_successful_part_wins_witness :
  exists r, parse_audio_mime_type (Some "rate=8000;rate=16000;rate=junk") = Ret r /\
            rate r = 16000.
Proof.
  destruct last_successful_part_wins as [H _].
  apply (H (Some "rate=8000;rate=16000;rate=junk")
           ["rate=8000"] "rate=16000" ["rate=junk"] 16000).
  - reflexivity.
  - reflexivity.
  - intros q [<- | []]. reflexivity.
Defined.

(** C4, as stated, fails: the two strings below have the same parts in a
    different order and parse to different rates. *)
Lemma parse_order_matters :
  Permutation (split ";" "rate=8000;rate=16000") (split ";" "rate=16000;rate=8000") /\
  parse_audio_mime_type (Some "rate=8000;rate=16000") <>
  parse_audio_mime_type (Some "rate=16000;rate=8000").
Proof.
  split; [apply perm_swap | discriminate].
Qed.

(** C4, amended.  ["audio/L24;rate=48000"] gives 24 bits and 48000 Hz, and
    so does ["rate=48000;audio/L24"]; reordering the parts of a MIME string
    leaves the result unchanged whenever no two of its parts assign
    different values to the same parameter. *)
Theorem parse_order_irrelevant :
  (forall m1 m2 : string,
      Permutation (split ";" m1) (split ";" m2) ->
      agree rate_of_part (mime_parts (Some m1)) ->
      agree bits_of_part (mime_parts (Some m1)) ->
      parse_audio_mime_type (Some m1) = parse_audio_mime_type (Some m2)) /\
  parse_audio_mime_type (Some "audio/L24;rate=48000") = Ret (mk_params 24 48000) /\
  parse_audio_mime_type (Some "rate=48000;audio/L24") = Ret (mk_params 24 48000).
Proof.
  split; [|split; reflexivity].
  intros m1 m2 Hperm Hr Hb.
  assert (Hperm' : Permutation (mime_parts (Some m1)) (mime_parts (Some m2))).
  { rewrite !mime_parts_Some. apply Permutation_map; exact Hperm. }
  rewrite !parse_eq.
  rewrite (last_set_perm bits_of_part _ _ 16 Hperm' Hb).
  rewrite (last_set_perm rate_of_part _ _ 24000 Hperm' Hr).
  reflexivity.
Qed.

Lemma parse_order_irrelevant_witness :
  parse_audio_mime_type (Some "audio/L24; rate=48000;x") =
  parse_audio_mime_type (Some "x; rate=48000;audio/L24").
Proof.
  destruct parse_order_irrelevant as [H _].
  apply H.
  - cbn. apply Permutation_rev with (l := ["audio/L24"; " rate=48000"; "x"]).
  - intros p q v w Hp Hq Hv Hw.
    destruct Hp as [<- | [<- | [<- | []]]]; try discriminate Hv;
      destruct Hq as [<- | [<- | [<- | []]]]; try discriminate Hw;
      vm_compute in Hv, Hw; congruence.
  - intros p q v w Hp Hq Hv Hw.
    destruct Hp as [<- | [<- | [<- | []]]]; try discriminate Hv;
      destruct Hq as [<- | [<- | [<- | []]]]; try discriminate Hw;
      vm_compute in Hv, Hw; congruence.
Defined.

(** ** Facts about strings *)

Lemma lower_app (s t : string) : lower (s ++ t) = lower s ++ lower t.
Proof. induction s as [|c s IH]; cbn; [reflexivity | rewrite IH; reflexivity]. Qed.

Lemma all_chars_app P (s t : string) :
  all_chars P (s ++ t) = all_chars P s && all_chars P t.
Proof.
  induction s as [|c s IH]; cbn; [reflexivity|].
  rewrite IH, andb_assoc; reflexivity.
Qed.

Lemma all_chars_impl (P Q : ascii -> bool) (s : string) :
  (forall c, P c = true -> Q c = true) ->
  all_chars P s = true -> all_chars Q s = true.
Proof.
  intros HPQ. induction s as [|c s IH]; cbn; [reflexivity|].
  intros H; apply andb_true_iff in H; destruct H as [Hc Hs].
  rewrite (HPQ c Hc), (IH Hs); reflexivity.
Qed.

Lemma lstrip_with_id sp (s : string) :
  all_chars (fun c => negb (sp c)) s = true -> lstrip_with sp s = s.
Proof.
  destruct s as [|c s]; cbn; [reflexivity|].
  intros H; apply andb_true_iff in H; destruct H as [Hc _].
  apply negb_true_iff in Hc; rewrite Hc; reflexivity.
Qed.

Lemma rstrip_with_id sp (s : string) :
  all_chars (fun c => negb (sp c)) s = true -> rstrip_with sp s = s.
Proof.
  induction s as [|c s IH]; cbn; [reflexivity|].
  intros H; apply andb_true_iff in H; destruct H as [Hc Hs].
  apply negb_true_iff in Hc. rewrite (IH Hs), Hc.
  destruct s; reflexivity.
Qed.

Lemma strip_with_id sp (s : string) :
  all_chars (fun c => negb (sp c)) s = true -> strip_with sp s = s.
Proof.
  intros H. unfold strip_with. rewrite (lstrip_with_id sp s H). apply rstrip_with_id, H.
Qed.

Lemma split_no_sep sep (s : string) :
  all_chars (fun c => negb (Ascii.eqb c sep)) s = true -> split sep s = [s].
Proof.
  induction s as [|c s IH]; cbn; [reflexivity|].
  intros H; apply andb_true_iff in H; destruct H as [Hc Hs].
  apply negb_true_iff in Hc. rewrite Hc, (IH Hs); reflexivity.
Qed.

Lemma mime_parts_plain (s : string) :
  all_chars plain s = true -> mime_parts (Some s) = [s].
Proof.
  intros H. rewrite mime_parts_Some.
  rewrite split_no_sep.
  - cbn [map]. unfold strip. rewrite strip_with_id; [reflexivity|].
    revert H; apply all_chars_impl. unfold plain.
    intros c Hc; apply andb_true_iff in Hc; tauto.
  - revert H; apply all_chars_impl. unfold plain.
    intros c Hc; apply andb_true_iff in Hc; tauto.
Qed.

Lemma prefix_same_length (a p t : string) :
  String.length a = String.length p -> String.prefix a (p ++ t) = true -> a = p.
Proof.
  revert p; induction a as [|x a IH]; intros [|y p] Hlen Hpre;
    try discriminate Hlen; [reflexivity|].
  cbn in Hpre. destruct (ascii_dec x y) as [->|]; [|discriminate].
  f_equal. apply IH; [injection Hlen; auto | exact Hpre].
Qed.

Lemma lower_length (s : string) : String.length (lower s) = String.length s.
Proof. induction s; cbn; congruence. Qed.

(** ** [int] reads back what [str] writes *)

Lemma digit_not_int_space (c : ascii) :
  is_digit c || Ascii.eqb c "-" = true -> negb (int_isspace c) = true.
Proof. by_cases_on_ascii c. Qed.

Lemma digit_plain (c : ascii) :
  is_digit c || Ascii.eqb c "-" = true -> plain c = true.
Proof. by_cases_on_ascii c. Qed.

Lemma digit_not_underscore (c : ascii) : is_digit c = true -> is_underscore c = false.
Proof. by_cases_on_ascii c. Qed.

Lemma digits_of_uint (d : Decimal.uint) :
  all_chars is_digit (NilEmpty.string_of_uint d) = true.
Proof. induction d; cbn; auto. Qed.

Lemma digits_of_uint_nz (d : Decimal.uint) :
  all_chars is_digit (NilZero.string_of_uint d) = true.
Proof. destruct d; try apply (digits_of_uint (_ _)); reflexivity. Qed.

Lemma uint_string_nonempty (d : Decimal.uint) : NilZero.string_of_uint d <> "".
Proof. destruct d; discriminate. Qed.

Lemma underscores_ok_digits (prev : bool) (s : string) :
  all_chars is_digit s = true -> s <> "" -> underscores_ok prev s = true.
Proof.
  revert prev; induction s as [|c s IH]; intros prev H Hne; [congruence|].
  cbn in H |- *. apply andb_true_iff in H; destruct H as [Hc Hs].
  rewrite (digit_not_underscore c Hc), Hc.
  destruct s as [|c' s']; [reflexivity|]. apply IH; [exact Hs | discriminate].
Qed.

Lemma drop_underscores_digits (s : string) :
  all_chars is_digit s = true -> drop_underscores s = s.
Proof.
  induction s as [|c s IH]; cbn; [reflexivity|].
  intros H; apply andb_true_iff in H; destruct H as [Hc Hs].
  rewrite (digit_not_underscore c Hc), (IH Hs); reflexivity.
Qed.

Lemma digits_value_of_uint (d : Decimal.uint) :
  digits_value (NilZero.string_of_uint d) =
  if (int_max_str_digits <? String.length (NilZero.string_of_uint d))%nat
  then Raise ValueError else Ret (Z.of_uint d).
Proof.
  unfold digits_value.
  rewrite (underscores_ok_digits false _ (digits_of_uint_nz d) (uint_string_nonempty d)).
  rewrite (drop_underscores_digits _ (digits_of_uint_nz d)). cbv zeta.
  destruct (int_max_str_digits <? String.length (NilZero.string_of_uint d))%nat;
    [reflexivity|].
  destruct d; try reflexivity; rewrite NilZero.usu; try reflexivity; discriminate.
Qed.

Lemma py_str_abs (n : Z) :
  py_str n = (if (n <? 0)%Z then "-" else "") ++ py_str (Z.abs n).
Proof. destruct n; reflexivity. Qed.

Lemma py_str_nonneg_uint (n : Z) :
  exists d, py_str (Z.abs n) = NilZero.string_of_uint d /\
            Z.to_int n = (if (n <? 0)%Z then Decimal.Neg d else Decimal.Pos d).
Proof. destruct n; eexists; split; reflexivity. Qed.

Lemma py_str_chars (n : Z) :
  all_chars (fun c => is_digit c || Ascii.eqb c "-") (py_str n) = true.
Proof.
  unfold py_str.
  assert (H : forall d, all_chars (fun c => is_digit c || Ascii.eqb c "-")
                          (NilZero.string_of_uint d) = true).
  { intros d. apply (all_chars_impl is_digit); [|apply digits_of_uint_nz].
    intros c Hc; rewrite Hc; reflexivity. }
  destruct (Z.to_int n) as [d|d]; cbn [NilZero.string_of_int].
  - apply H.
  - cbn [all_chars]. rewrite H. reflexivity.
Qed.

Lemma py_int_digits_first (c : ascii) (r : string) :
  is_digit c = true ->
  py_int (String c r) =
  match strip_with int_isspace (String c r) with
  | String c' r' => digits_value (String c' r')
  | EmptyString => digits_value EmptyString
  end.
Proof.
  intros Hc. unfold py_int.
  assert (Hns : int_isspace c = false) by (revert Hc; by_cases_on_ascii c).
  unfold strip_with. cbn [lstrip_with]. rewrite Hns.
  cbn [rstrip_with]. rewrite Hns.
  destruct (rstrip_with int_isspace r); revert Hc; by_cases_on_ascii c.
Qed.

(** [int(str(n))]: [n] within the limit on digits, [ValueError] beyond. *)
Lemma py_int_py_str_gen (n : Z) :
  py_int (py_str n) =
  if (int_max_str_digits <? decimal_digits n)%nat then Raise ValueError else Ret n.
Proof.
  assert (Hstrip : strip_with int_isspace (py_str n) = py_str n).
  { apply strip_with_id. generalize (py_str_chars n).
    apply all_chars_impl. exact digit_not_int_space. }
  unfold decimal_digits.
  destruct (py_str_nonneg_uint n) as (d & Habs & Hint). rewrite Habs.
  replace (Ret n) with (@Ret Z (Z.of_int (Z.to_int n)))
    by (rewrite DecimalZ.of_to; reflexivity).
  unfold py_str in Hstrip |- *. rewrite Hint in Hstrip |- *.
  destruct (n <? 0)%Z; cbn [NilZero.string_of_int Z.of_int] in *.
  - unfold py_int. rewrite Hstrip. rewrite digits_value_of_uint.
    destruct (int_max_str_digits <? String.length (NilZero.string_of_uint d))%nat;
      reflexivity.
  - pose proof (digits_of_uint_nz d) as Hd.
    pose proof (uint_string_nonempty d) as Hne.
    destruct (NilZero.string_of_uint d) as [|c r] eqn:E; [congruence|].
    cbn in Hd. apply andb_true_iff in Hd. destruct Hd as [Hc _].
    rewrite (py_int_digits_first c r Hc), Hstrip, <- E.
    apply digits_value_of_uint.
Qed.

Lemma py_int_py_str (n : Z) :
  (decimal_digits n <= int_max_str_digits)%nat -> py_int (py_str n) = Ret n.
Proof.
  intros H. rewrite py_int_py_str_gen.
  destruct (Nat.ltb_spec int_max_str_digits (decimal_digits n)); [lia | reflexivity].
Qed.

Lemma py_int_py_str_long (n : Z) :
  (int_max_str_digits < decimal_digits n)%nat -> py_int (py_str n) = Raise ValueError.
Proof.
  intros H. rewrite py_int_py_str_gen.
  destruct (Nat.ltb_spec int_max_str_digits (decimal_digits n)); [reflexivity | lia].
Qed.

(** *** How many digits an integer has *)

Lemma little_double_digits (d : Decimal.uint) :
  (Decimal.nb_digits (Decimal.Little.double d) <= S (Decimal.nb_digits d))%nat /\
  (Decimal.nb_digits (Decimal.Little.succ_double d) <= S (Decimal.nb_digits d))%nat.
Proof. induction d as [|d [IH1 IH2]|d [IH1 IH2]|d [IH1 IH2]|d [IH1 IH2]|d [IH1 IH2]
                       |d [IH1 IH2]|d [IH1 IH2]|d [IH1 IH2]|d [IH1 IH2]|d [IH1 IH2]];
         cbn; lia.
Qed.

Lemma little_uint_digits (p : positive) (k : nat) :
  Z.pos p < 2 ^ Z.of_nat k -> (Decimal.nb_digits (Pos.to_little_uint p) <= k)%nat.
Proof.
  revert k; induction p as [p IH|p IH|]; intros k Hk.
  - destruct k as [|k]; [cbn in Hk; lia|].
    rewrite Nat2Z.inj_succ, Z.pow_succ_r in Hk by lia.
    cbn [Pos.to_little_uint].
    pose proof (proj2 (little_double_digits (Pos.to_little_uint p))).
    assert (Z.pos p < 2 ^ Z.of_nat k) by lia. specialize (IH k ltac:(assumption)). lia.
  - destruct k as [|k]; [cbn in Hk; lia|].
    rewrite Nat2Z.inj_succ, Z.pow_succ_r in Hk by lia.
    cbn [Pos.to_little_uint].
    pose proof (proj1 (little_double_digits (Pos.to_little_uint p))).
    assert (Z.pos p < 2 ^ Z.of_nat k) by lia. specialize (IH k ltac:(assumption)). lia.
  - destruct k as [|k]; [cbn in Hk; lia|]. cbn. lia.
Qed.

Lemma string_of_uint_length (d : Decimal.uint) :
  String.length (NilEmpty.string_of_uint d) = Decimal.nb_digits d.
Proof. induction d; cbn; congruence. Qed.

(** An integer below [2 ^ k] in absolute value has at most [k] digits. *)
Lemma decimal_digits_bound (n : Z) (k : nat) :
  (0 < k)%nat -> Z.abs n < 2 ^ Z.of_nat k -> (decimal_digits n <= k)%nat.
Proof.
  intros Hk Hn. unfold decimal_digits, py_str.
  destruct (Z.abs n) as [|p|p] eqn:E; [cbn; lia | | lia].
  cbn [Z.to_int NilZero.string_of_int]. unfold NilZero.string_of_uint.
  assert (Hd : (Decimal.nb_digits (Pos.to_uint p) <= k)%nat).
  { unfold Pos.to_uint. rewrite DecimalFacts.nb_digits_rev.
    apply little_uint_digits. exact Hn. }
  destruct (Pos.to_uint p) eqn:Ep; try (rewrite <- Ep in *; rewrite string_of_uint_length; exact Hd).
  cbn. lia.
Qed.

Lemma small_within_limit (n : Z) :
  Z.abs n < 2 ^ 32 -> (decimal_digits n <= int_max_str_digits)%nat.
Proof.
  intros H. pose proof (decimal_digits_bound n 32 ltac:(lia) H).
  unfold int_max_str_digits. lia.
Qed.

(** ** Letter case in the two patterns *)

Lemma prefix_app (s t : string) : String.prefix s (s ++ t) = true.
Proof.
  induction s as [|c s IH]; cbn; [destruct t; reflexivity|].
  destruct (ascii_dec c c); [exact IH | congruence].
Qed.

Lemma prefix_cons (a c : ascii) (s t : string) :
  String.prefix (String a s) (String c t) =
  if ascii_dec a c then String.prefix s t else false.
Proof. reflexivity. Qed.

Lemma lower_char_eq_sign (c : ascii) : lower_char c = "="%char -> c = "="%char.
Proof. by_cases_on_ascii c. Qed.

Lemma cased_letter (c x : ascii) :
  lower_char c = x -> is_lower_letter x = true ->
  Ascii.eqb c "=" = false /\ plain c = true.
Proof. intros <-. by_cases_on_ascii c; intros _; split; reflexivity. Qed.

Lemma rate_casing (pre : string) :
  lower pre = "rate=" ->
  exists c1 c2 c3 c4,
    pre = String c1 (String c2 (String c3 (String c4 "="))) /\
    lower_char c1 = "r"%char /\ lower_char c2 = "a"%char /\
    lower_char c3 = "t"%char /\ lower_char c4 = "e"%char.
Proof.
  destruct pre as [|c1 [|c2 [|c3 [|c4 [|c5 [|c6 r]]]]]]; cbn; intros H;
    try discriminate H.
  injection H as H1 H2 H3 H4 H5.
  apply lower_char_eq_sign in H5; subst c5.
  exists c1, c2, c3, c4; auto.
Qed.

Lemma rate_of_cased_part (pre t : string) :
  lower pre = "rate=" ->
  rate_of_part (pre ++ t) = match py_int t with Ret v => Some v | Raise _ => None end.
Proof.
  intros Hlow. unfold rate_of_part, startswith.
  rewrite lower_app, Hlow, prefix_app.
  destruct (rate_casing pre Hlow) as (c1 & c2 & c3 & c4 & -> & H1 & H2 & H3 & H4).
  destruct (cased_letter c1 _ H1 eq_refl) as [E1 _].
  destruct (cased_letter c2 _ H2 eq_refl) as [E2 _].
  destruct (cased_letter c3 _ H3 eq_refl) as [E3 _].
  destruct (cased_letter c4 _ H4 eq_refl) as [E4 _].
  cbn. rewrite E1, E2, E3, E4. cbn. reflexivity.
Qed.

Lemma bits_of_cased_rate_part (pre t : string) :
  lower pre = "rate=" -> bits_of_part (pre ++ t) = None.
Proof.
  intros Hlow. unfold bits_of_part, startswith.
  destruct (rate_casing pre Hlow) as (c1 & c2 & c3 & c4 & -> & H1 & _).
  replace (String.prefix "audio/L" (String c1 (String c2 (String c3 (String c4 "="))) ++ t))
    with false; [reflexivity|].
  cbn [append]. rewrite prefix_cons.
  destruct (ascii_dec "a" c1) as [<-|]; [discriminate H1 | reflexivity].
Qed.

Lemma cased_rate_plain (pre : string) :
  lower pre = "rate=" -> all_chars plain pre = true.
Proof.
  intros Hlow.
  destruct (rate_casing pre Hlow) as (c1 & c2 & c3 & c4 & -> & H1 & H2 & H3 & H4).
  destruct (cased_letter c1 _ H1 eq_refl) as [_ E1].
  destruct (cased_letter c2 _ H2 eq_refl) as [_ E2].
  destruct (cased_letter c3 _ H3 eq_refl) as [_ E3].
  destruct (cased_letter c4 _ H4 eq_refl) as [_ E4].
  cbn. rewrite E1, E2, E3, E4. reflexivity.
Qed.

Lemma py_str_plain (n : Z) : all_chars plain (py_str n) = true.
Proof. generalize (py_str_chars n). apply all_chars_impl. exact digit_plain. Qed.

Lemma parse_single_part (s : string) :
  all_chars plain s = true ->
  parse_audio_mime_type (Some s) =
  Ret (mk_params (or_else (bits_of_part s) 16) (or_else (rate_of_part s) 24000)).
Proof.
  intros H. rewrite parse_eq, (mime_parts_plain s H). reflexivity.
Qed.

Lemma unmatched_part (p : string) (st : params) :
  startswith (lower p) "rate=" = false -> startswith p "audio/L" = false ->
  parse_part p st = Ret st.
Proof.
  intros Hr Hb. unfold parse_part. rewrite Hr, Hb. destruct st; reflexivity.
Qed.

Lemma miscased_audio_part (pre tail : string) :
  lower pre = "audio/l" -> pre <> "audio/L" ->
  startswith (lower (pre ++ tail)) "rate=" = false /\
  startswith (pre ++ tail) "audio/L" = false.
Proof.
  intros Hlow Hne. unfold startswith. split.
  - rewrite lower_app, Hlow. reflexivity.
  - destruct (String.prefix "audio/L" (pre ++ tail)) eqn:E; [|reflexivity].
    exfalso; apply Hne. symmetry. apply (prefix_same_length _ _ tail); [|exact E].
    rewrite <- (lower_length pre), Hlow. reflexivity.
Qed.

Lemma bits_of_literal_part (t : string) :
  bits_of_part ("audio/L" ++ t) = match py_int t with Ret v => Some v | Raise _ => None end.
Proof.
  unfold bits_of_part, startswith. rewrite prefix_app. reflexivity.
Qed.

Lemma rate_of_literal_part (t : string) : rate_of_part ("audio/L" ++ t) = None.
Proof. reflexivity. Qed.

(** *** Integers of more than 4300 digits *)

Lemma repunit_text (k : nat) :
  py_str (repunit (S k)) = NilEmpty.string_of_uint (Nat.iter (S k) Decimal.D1 Decimal.Nil).
Proof.
  unfold py_str, repunit.
  change (Z.of_uint (Nat.iter (S k) Decimal.D1 Decimal.Nil))
    with (Z.of_int (Decimal.Pos (Nat.iter (S k) Decimal.D1 Decimal.Nil))).
  rewrite DecimalZ.to_of. reflexivity.
Qed.

Lemma repunit_nonneg (k : nat) : 0 <= repunit k.
Proof. unfold repunit, Z.of_uint. apply N2Z.is_nonneg. Qed.

Lemma repunit_digits (k : nat) : decimal_digits (repunit (S k)) = S k.
Proof.
  unfold decimal_digits. rewrite (Z.abs_eq _ (repunit_nonneg (S k))), repunit_text.
  rewrite string_of_uint_length. generalize (S k). intros n.
  induction n as [|n IH]; [reflexivity|].
  change (Nat.iter (S n) Decimal.D1 Decimal.Nil)
    with (Decimal.D1 (Nat.iter n Decimal.D1 Decimal.Nil)).
  cbn [Decimal.nb_digits]. rewrite IH. reflexivity.
Qed.

Lemma long_text_sets_no_rate (pre : string) (n : Z) :
  lower pre = "rate=" -> (int_max_str_digits < decimal_digits n)%nat ->
  parse_audio_mime_type (Some (pre ++ py_str n)) = Ret (mk_params 16 24000).
Proof.
  intros Hlow Hlong. rewrite parse_single_part.
  - rewrite (rate_of_cased_part pre _ Hlow), (bits_of_cased_rate_part pre _ Hlow).
    rewrite (py_int_py_str_long n Hlong). reflexivity.
  - rewrite all_chars_app, (cased_rate_plain pre Hlow), py_str_plain. reflexivity.
Qed.

Lemma repunit_long : (int_max_str_digits < decimal_digits (repunit 4301))%nat.
Proof. rewrite (repunit_digits 4300). unfold int_max_str_digits. lia. Qed.

Lemma short_integers (n : Z) :
  Z.abs n < 2 ^ 32 -> ~ (int_max_str_digits < decimal_digits n)%nat.
Proof. intros H. pose proof (small_within_limit n H). lia. Qed.

(** C5, as stated, fails: the integer written with 4301 ones is an integer
    [N], but [int] refuses its text, so the part [RATE=N] leaves the rate
    at its default. *)
Lemma long_rate_not_set :
  decimal_digits (repunit 4301) = 4301%nat /\
  parse_audio_mime_type (Some ("RATE=" ++ py_str (repunit 4301))) =
  Ret (mk_params 16 24000) /\
  repunit 4301 <> 24000.
Proof.
  split; [exact (repunit_digits 4300)|]. split.
  - exact (long_text_sets_no_rate "RATE=" (repunit 4301) eq_refl repunit_long).
  - intros E. apply (short_integers 24000); [reflexivity|].
    rewrite <- E. exact repunit_long.
Qed.

(** C5, amended.  A part that is [rate=] in any letter case followed by the
    decimal text of an integer [n] of at most 4300 digits sets the rate to
    [n] and leaves the bit depth alone; with more digits [int] refuses the
    text and the part sets nothing.  A part that is the literal [audio/L]
    followed by such a text sets the bit depth to [n] and leaves the rate
    alone, while a part that begins with [audio/L] in any other letter
    case ([AUDIO/L24] for one) sets nothing; a part that matches neither
    pattern leaves both fields as they were. *)
Theorem part_matching_letter_case :
  (forall pre n st,
      lower pre = "rate=" -> (decimal_digits n <= int_max_str_digits)%nat ->
      parse_part (pre ++ py_str n) st = Ret (mk_params (bits_per_sample st) n)) /\
  (forall pre n,
      lower pre = "rate=" -> (decimal_digits n <= int_max_str_digits)%nat ->
      parse_audio_mime_type (Some (pre ++ py_str n)) = Ret (mk_params 16 n)) /\
  (forall pre n st,
      lower pre = "rate=" -> (int_max_str_digits < decimal_digits n)%nat ->
      parse_part (pre ++ py_str n) st = Ret st) /\
  (forall n st,
      (decimal_digits n <= int_max_str_digits)%nat ->
      parse_part ("audio/L" ++ py_str n) st = Ret (mk_params n (rate st))) /\
  (forall n,
      (decimal_digits n <= int_max_str_digits)%nat ->
      parse_audio_mime_type (Some ("audio/L" ++ py_str n)) = Ret (mk_params n 24000)) /\
  (forall pre tail st,
      lower pre = "audio/l" -> pre <> "audio/L" ->
      parse_part (pre ++ tail) st = Ret st) /\
  parse_audio_mime_type (Some "AUDIO/L24") = Ret (mk_params 16 24000) /\
  (forall p st,
      startswith (lower p) "rate=" = false -> startswith p "audio/L" = false ->
      parse_part p st = Ret st).
Proof.
  split; [|split; [|split; [|split; [|split; [|split; [|split; [reflexivity|]]]]]]].
  - intros pre n st Hlow Hn. rewrite parse_part_eq.
    rewrite (rate_of_cased_part pre _ Hlow), (bits_of_cased_rate_part pre _ Hlow).
    rewrite (py_int_py_str n Hn). reflexivity.
  - intros pre n Hlow Hn. rewrite parse_single_part.
    + rewrite (rate_of_cased_part pre _ Hlow), (bits_of_cased_rate_part pre _ Hlow).
      rewrite (py_int_py_str n Hn). reflexivity.
    + rewrite all_chars_app, (cased_rate_plain pre Hlow), py_str_plain. reflexivity.
  - intros pre n st Hlow Hn. rewrite parse_part_eq.
    rewrite (rate_of_cased_part pre _ Hlow), (bits_of_cased_rate_part pre _ Hlow).
    rewrite (py_int_py_str_long n Hn). destruct st; reflexivity.
  - intros n st Hn. rewrite parse_part_eq.
    rewrite bits_of_literal_part, rate_of_literal_part, (py_int_py_str n Hn). reflexivity.
  - intros n Hn. rewrite parse_single_part.
    + rewrite bits_of_literal_part, rate_of_literal_part, (py_int_py_str n Hn). reflexivity.
    + rewrite all_chars_app, py_str_plain. reflexivity.
  - intros pre tail st Hlow Hne.
    destruct (miscased_audio_part pre tail Hlow Hne) as [Hr Hb].
    apply unmatched_part; assumption.
  - exact unmatched_part.
Qed.

Lemma part_matching_letter_case_witness :
  parse_part "RaTe=-7" (mk_params 8 9) = Ret (mk_params 8 (-7)) /\
  parse_audio_mime_type (Some "RATE=44100") = Ret (mk_params 16 44100) /\
  parse_part "audio/L24" (mk_params 8 9) = Ret (mk_params 24 9) /\
  parse_part "Audio/L24" (mk_params 8 9) = Ret (mk_params 8 9) /\
  parse_part "channels=2" (mk_params 8 9) = Ret (mk_params 8 9).
Proof.
  destruct part_matching_letter_case as (H1 & H2 & _ & H4 & _ & H6 & _ & H8).
  split; [|split; [|split; [|split]]].
  - apply (H1 "RaTe=" (-7) (mk_params 8 9)); [reflexivity | vm_compute; lia].
  - apply (H2 "RATE=" 44100); [reflexivity | vm_compute; lia].
  - apply (H4 24 (mk_params 8 9)). vm_compute; lia.
  - apply (H6 "Audio/L" "24" (mk_params 8 9)); [reflexivity | discriminate].
  - apply (H8 "channels=2" (mk_params 8 9)); reflexivity.
Defined.

(** ** Values the parser lets through *)

Lemma append_assoc (s t u : string) : (s ++ t) ++ u = s ++ (t ++ u).
Proof. induction s as [|c s IH]; cbn; [reflexivity | rewrite IH; reflexivity]. Qed.

Lemma split_app_sep sep (s t : string) :
  all_chars (fun c => negb (Ascii.eqb c sep)) s = true ->
  split sep (s ++ String sep t) = s :: split sep t.
Proof.
  induction s as [|c s IH]; cbn.
  - intros _. rewrite Ascii.eqb_refl. reflexivity.
  - intros H; apply andb_true_iff in H; destruct H as [Hc Hs].
    apply negb_true_iff in Hc. rewrite Hc, (IH Hs). reflexivity.
Qed.

Lemma plain_no_semicolon (s : string) :
  all_chars plain s = true -> all_chars (fun c => negb (Ascii.eqb c ";")) s = true.
Proof.
  apply all_chars_impl. unfold plain. intros c Hc; apply andb_true_iff in Hc; tauto.
Qed.

Lemma plain_no_space (s : string) :
  all_chars plain s = true -> all_chars (fun c => negb (isspace c)) s = true.
Proof.
  apply all_chars_impl. unfold plain. intros c Hc; apply andb_true_iff in Hc; tauto.
Qed.

Lemma mime_parts_two (s t : string) :
  all_chars plain s = true -> all_chars plain t = true ->
  mime_parts (Some (s ++ String ";" t)) = [s; t].
Proof.
  intros Hs Ht. rewrite mime_parts_Some.
  rewrite (split_app_sep ";" s t (plain_no_semicolon s Hs)).
  rewrite (split_no_sep ";" t (plain_no_semicolon t Ht)).
  cbn [map]. unfold strip.
  rewrite (strip_with_id isspace s (plain_no_space s Hs)).
  rewrite (strip_with_id isspace t (plain_no_space t Ht)).
  reflexivity.
Qed.

Lemma parse_canonical (bits rate_hz : Z) :
  (decimal_digits bits <= int_max_str_digits)%nat ->
  (decimal_digits rate_hz <= int_max_str_digits)%nat ->
  parse_audio_mime_type (Some ("audio/L" ++ py_str bits ++ ";rate=" ++ py_str rate_hz)) =
  Ret (mk_params bits rate_hz).
Proof.
  intros Hbits Hrate.
  rewrite <- append_assoc.
  change (";rate=" ++ py_str rate_hz) with (String ";" ("rate=" ++ py_str rate_hz)).
  rewrite parse_eq, mime_parts_two.
  - unfold last_set. cbn [fold_left].
    rewrite bits_of_literal_part, rate_of_literal_part.
    rewrite (rate_of_cased_part "rate=" _ eq_refl), (bits_of_cased_rate_part "rate=" _ eq_refl).
    rewrite (py_int_py_str bits Hbits), (py_int_py_str rate_hz Hrate). reflexivity.
  - rewrite all_chars_app, py_str_plain. reflexivity.
  - rewrite all_chars_app, py_str_plain. reflexivity.
Qed.

(** ** [struct.pack] on the header *)

Lemma in_range_iff (n : nat) (v : Z) :
  in_range n v = true <-> 0 <= v < 256 ^ Z.of_nat n.
Proof. unfold in_range. rewrite andb_true_iff, Z.leb_le, Z.ltb_lt. tauto. Qed.

Lemma byte_of_Z_value (v : Z) : Z.of_N (Byte.to_N (byte_of_Z v)) = v mod 256.
Proof.
  unfold byte_of_Z.
  assert (Hm : 0 <= v mod 256 < 256) by (apply Z.mod_pos_bound; lia).
  destruct (Byte.of_N (Z.to_N (v mod 256))) as [x|] eqn:E.
  - apply Byte.to_of_N in E. rewrite E. lia.
  - apply Byte.of_N_None_iff in E. lia.
Qed.

Lemma le_bytes_length (n : nat) (v : Z) : List.length (le_bytes n v) = n.
Proof. revert v; induction n as [|n IH]; intros v; cbn; [reflexivity | rewrite IH; reflexivity]. Qed.

(** Little-endian: the bytes written denote the integer that was packed. *)
Lemma le_value_le_bytes (n : nat) (v : Z) :
  in_range n v = true -> le_value (le_bytes n v) = v.
Proof.
  rewrite in_range_iff. revert v; induction n as [|n IH]; intros v Hv.
  - cbn in *. lia.
  - cbn [le_bytes le_value]. rewrite byte_of_Z_value, IH.
    + pose proof (Z.div_mod v 256). lia.
    + rewrite Nat2Z.inj_succ, Z.pow_succ_r in Hv by lia.
      split; [apply Z.div_pos; lia | apply Z.div_lt_upper_bound; lia].
Qed.

Lemma pack_header (chunk_size sample_rate byte_rate block_align bits data_size : Z) :
  struct_pack "<4sI4s4sIHHIIHH4sI"
    [ A_bytes (bytes_lit "RIFF"); A_int chunk_size; A_bytes (bytes_lit "WAVE");
      A_bytes (bytes_lit "fmt "); A_int 16; A_int 1; A_int 1;
      A_int sample_rate; A_int byte_rate; A_int block_align; A_int bits;
      A_bytes (bytes_lit "data"); A_int data_size ] =
  if in_range 4 chunk_size && in_range 4 sample_rate && in_range 4 byte_rate
     && in_range 2 block_align && in_range 2 bits && in_range 4 data_size
  then Ret (bytes_lit "RIFF" ++ le_bytes 4 chunk_size ++ bytes_lit "WAVE"
            ++ bytes_lit "fmt " ++ le_bytes 4 16 ++ le_bytes 2 1 ++ le_bytes 2 1
            ++ le_bytes 4 sample_rate ++ le_bytes 4 byte_rate
            ++ le_bytes 2 block_align ++ le_bytes 2 bits
            ++ bytes_lit "data" ++ le_bytes 4 data_size)%list
  else Raise StructError.
Proof.
  unfold struct_pack.
  change (parse_format "<4sI4s4sIHHIIHH4sI")
    with (Some [F_s 4; F_I; F_s 4; F_s 4; F_I; F_H; F_H; F_I; F_I; F_H; F_H; F_s 4; F_I]).
  cbn [pack_fields pack_field]. unfold pack_uint.
  change (in_range 4 16) with true. change (in_range 2 1) with true.
  destruct (in_range 4 chunk_size); [|reflexivity].
  destruct (in_range 4 sample_rate); [|reflexivity].
  destruct (in_range 4 byte_rate); [|reflexivity].
  destruct (in_range 2 block_align); [|reflexivity].
  destruct (in_range 2 bits); [|reflexivity].
  destruct (in_range 4 data_size); reflexivity.
Qed.

Lemma wav_header_eq (data_size : Z) (mime_type : option string) (p : params) :
  parse_audio_mime_type mime_type = Ret p ->
  wav_header data_size mime_type =
  if fits data_size p then Ret (header_bytes data_size p) else Raise StructError.
Proof.
  intros Hp. unfold wav_header. rewrite Hp. cbn [bind]. cbv zeta.
  rewrite pack_header, Z.mul_1_l. reflexivity.
Qed.

Lemma convert_to_wav_eq (audio_data : list byte) (mime_type : option string) (p : params) :
  parse_audio_mime_type mime_type = Ret p ->
  convert_to_wav audio_data mime_type =
  if fits (Z.of_nat (List.length audio_data)) p
  then Ret (header_bytes (Z.of_nat (List.length audio_data)) p ++ audio_data)%list
  else Raise StructError.
Proof.
  intros Hp. unfold convert_to_wav. rewrite (wav_header_eq _ _ p Hp).
  destruct (fits _ p); reflexivity.
Qed.

Lemma header_bytes_length (data_size : Z) (p : params) :
  List.length (header_bytes data_size p) = 44%nat.
Proof. reflexivity. Qed.

Lemma skipn_header (data_size : Z) (p : params) (payload : list byte) :
  skipn 44 (header_bytes data_size p ++ payload) = payload.
Proof. reflexivity. Qed.

Lemma firstn_header (data_size : Z) (p : params) (payload : list byte) :
  firstn 44 (header_bytes data_size p ++ payload) = header_bytes data_size p.
Proof. reflexivity. Qed.

Lemma fits_iff (data_size : Z) (p : params) :
  fits data_size p = true <->
  0 <= data_size /\ 36 + data_size < 2 ^ 32 /\
  0 <= eff_bits p < 2 ^ 16 /\ 0 <= eff_rate p < 2 ^ 32 /\
  eff_rate p * (eff_bits p / 8) < 2 ^ 32.
Proof.
  unfold fits. rewrite !andb_true_iff, !in_range_iff.
  change (256 ^ Z.of_nat 4) with 4294967296. change (256 ^ Z.of_nat 2) with 65536.
  change (2 ^ 32) with 4294967296. change (2 ^ 16) with 65536.
  split.
  - intros H. lia.
  - intros (H1 & H2 & H3 & H4 & H5).
    assert (0 <= eff_bits p / 8 < 65536)
      by (split; [apply Z.div_pos; lia | apply Z.div_lt_upper_bound; lia]).
    assert (0 <= eff_rate p * (eff_bits p / 8)) by (apply Z.mul_nonneg_nonneg; lia).
    lia.
Qed.

Lemma int_or_nonzero (x d : Z) : x <> 0 -> int_or x d = x.
Proof. intros H. unfold int_or. destruct (Z.eqb_spec x 0); [contradiction | reflexivity]. Qed.

(** ** The encoder *)

(** C1, as stated, fails: 65536 is a positive multiple of 8 and 24000 is
    positive, yet the depth does not fit its two-byte field and the call
    raises [struct.error]. *)
Lemma convert_to_wav_rejects_wide_depth :
  parse_audio_mime_type (Some "audio/L65536;rate=24000") = Ret (mk_params 65536 24000) /\
  0 < 65536 /\ 65536 mod 8 = 0 /\ 0 < 24000 /\
  convert_to_wav [] (Some "audio/L65536;rate=24000") = Raise StructError.
Proof. repeat split. Qed.

(** The layout, for any MIME string that parses to the given depth and rate. *)
Lemma layout_of_parsed :
  forall payload mime_type bits rate_hz,
      parse_audio_mime_type mime_type = Ret (mk_params bits rate_hz) ->
      0 < bits -> bits mod 8 = 0 -> 0 < rate_hz ->
      bits < 2 ^ 16 -> rate_hz < 2 ^ 32 -> rate_hz * (bits / 8) < 2 ^ 32 ->
      36 + Z.of_nat (List.length payload) < 2 ^ 32 ->
      exists out,
        convert_to_wav payload mime_type = Ret out /\
        out = (wav_layout (Z.of_nat (List.length payload)) bits rate_hz ++ payload)%list /\
        List.length out = (44 + List.length payload)%nat /\
        slice 0 4 out = bytes_lit "RIFF" /\
        le_value (slice 4 4 out) = 36 + Z.of_nat (List.length payload) /\
        slice 8 4 out = bytes_lit "WAVE" /\
        slice 12 4 out = bytes_lit "fmt " /\
        le_value (slice 16 4 out) = 16 /\
        le_value (slice 20 2 out) = 1 /\
        le_value (slice 22 2 out) = 1 /\
        le_value (slice 24 4 out) = rate_hz /\
        le_value (slice 28 4 out) = rate_hz * (bits / 8) /\
        le_value (slice 32 2 out) = bits / 8 /\
        le_value (slice 34 2 out) = bits /\
        slice 36 4 out = bytes_lit "data" /\
        le_value (slice 40 4 out) = Z.of_nat (List.length payload) /\
        skipn 44 out = payload.
Proof.
  intros payload mime_type bits rate_hz Hparse Hb Hmod Hr Hb16 Hr32 Hbr Hlen.
  set (n := Z.of_nat (List.length payload)) in *.
  assert (Heb : eff_bits (mk_params bits rate_hz) = bits)
    by (apply int_or_nonzero; cbn; lia).
  assert (Her : eff_rate (mk_params bits rate_hz) = rate_hz)
    by (apply int_or_nonzero; cbn; lia).
  assert (Hfits : fits n (mk_params bits rate_hz) = true).
  { apply fits_iff. rewrite Heb, Her. lia. }
  pose proof Hfits as Hranges. unfold fits in Hranges.
  rewrite !andb_true_iff, Heb, Her in Hranges.
  destruct Hranges as (((((R1 & R2) & R3) & R4) & R5) & R6).
  eexists. split.
  { rewrite (convert_to_wav_eq _ _ _ Hparse). fold n. rewrite Hfits.
    unfold header_bytes. rewrite Heb, Her. reflexivity. }
  split; [reflexivity|].
  split; [unfold wav_layout; cbn [List.length app le_bytes bytes_lit list_byte_of_string]; reflexivity|].
  repeat split; try reflexivity.
  - exact (le_value_le_bytes 4 _ R1).
  - exact (le_value_le_bytes 4 _ R2).
  - exact (le_value_le_bytes 4 _ R3).
  - exact (le_value_le_bytes 2 _ R4).
  - exact (le_value_le_bytes 2 _ R5).
  - exact (le_value_le_bytes 4 _ R6).
Qed.

(** C1, amended.  For every payload, every bit depth that is a positive
    multiple of 8 and every positive sample rate such that the header's
    integers fit their fields (depth below 2^16, rate and byte rate below
    2^32, 36 plus the payload length below 2^32), the output is the 44-byte
    header of the specification followed by the payload: each field sits at
    its offset and reads back, little-endian, as the prescribed value, and
    the length is 44 plus the payload length.  This holds for any MIME
    string that parses to this depth and rate, [audio/L<bits>;rate=<hz>]
    for one.  An empty payload at 16 bits and 24000 Hz gives the canonical
    44 bytes, with chunk size 36, byte rate 48000 and block align 2. *)
Theorem convert_to_wav_layout :
  (forall payload mime_type bits rate_hz,
      parse_audio_mime_type mime_type = Ret (mk_params bits rate_hz) ->
      0 < bits -> bits mod 8 = 0 -> 0 < rate_hz ->
      bits < 2 ^ 16 -> rate_hz < 2 ^ 32 -> rate_hz * (bits / 8) < 2 ^ 32 ->
      36 + Z.of_nat (List.length payload) < 2 ^ 32 ->
      exists out,
        convert_to_wav payload mime_type = Ret out /\
        out = (wav_layout (Z.of_nat (List.length payload)) bits rate_hz ++ payload)%list /\
        List.length out = (44 + List.length payload)%nat /\
        slice 0 4 out = bytes_lit "RIFF" /\
        le_value (slice 4 4 out) = 36 + Z.of_nat (List.length payload) /\
        slice 8 4 out = bytes_lit "WAVE" /\
        slice 12 4 out = bytes_lit "fmt " /\
        le_value (slice 16 4 out) = 16 /\
        le_value (slice 20 2 out) = 1 /\
        le_value (slice 22 2 out) = 1 /\
        le_value (slice 24 4 out) = rate_hz /\
        le_value (slice 28 4 out) = rate_hz * (bits / 8) /\
        le_value (slice 32 2 out) = bits / 8 /\
        le_value (slice 34 2 out) = bits /\
        slice 36 4 out = bytes_lit "data" /\
        le_value (slice 40 4 out) = Z.of_nat (List.length payload) /\
        skipn 44 out = payload) /\
  (forall payload bits rate_hz,
      0 < bits -> bits mod 8 = 0 -> 0 < rate_hz ->
      bits < 2 ^ 16 -> rate_hz < 2 ^ 32 -> rate_hz * (bits / 8) < 2 ^ 32 ->
      36 + Z.of_nat (List.length payload) < 2 ^ 32 ->
      convert_to_wav payload (Some ("audio/L" ++ py_str bits ++ ";rate=" ++ py_str rate_hz))
      = Ret (wav_layout (Z.of_nat (List.length payload)) bits rate_hz ++ payload)%list) /\
  convert_to_wav [] (Some "audio/L16;rate=24000") =
  Ret [ x52; x49; x46; x46;  x24; x00; x00; x00;  x57; x41; x56; x45;
        x66; x6d; x74; x20;  x10; x00; x00; x00;  x01; x00;  x01; x00;
        xc0; x5d; x00; x00;  x80; xbb; x00; x00;  x02; x00;  x10; x00;
        x64; x61; x74; x61;  x00; x00; x00; x00 ] /\
  le_value [x24; x00; x00; x00] = 36 /\
  le_value [x80; xbb; x00; x00] = 48000 /\
  le_value [x02; x00] = 2.
Proof.
  split; [exact layout_of_parsed|]. split; [|repeat split].
  intros payload bits rate_hz Hb Hmod Hr Hb16 Hr32 Hbr Hlen.
  assert (Hdb : (decimal_digits bits <= int_max_str_digits)%nat)
    by (apply small_within_limit; lia).
  assert (Hdr : (decimal_digits rate_hz <= int_max_str_digits)%nat)
    by (apply small_within_limit; lia).
  destruct (layout_of_parsed payload _ bits rate_hz (parse_canonical bits rate_hz Hdb Hdr)
              Hb Hmod Hr Hb16 Hr32 Hbr Hlen) as (out & Hout & -> & _).
  exact Hout.
Qed.

Lemma convert_to_wav_layout_witness :
  exists out,
    convert_to_wav [x00; xff; x10] (Some "audio/L24;rate=48000") = Ret out /\
    List.length out = 47%nat /\
    le_value (slice 28 4 out) = 144000 /\
    skipn 44 out = [x00; xff; x10].
Proof.
  destruct convert_to_wav_layout as [H _].
  destruct (H [x00; xff; x10] (Some "audio/L24;rate=48000") 24 48000)
    as (out & Hout & _ & Hlen & _ & _ & _ & _ & _ & _ & _ & _ & Hbr & _ & _ & _ & _ & Hpay);
    try reflexivity.
  exists out. repeat split; assumption.
Defined.

(** C2.  Whenever the encoder returns, the bytes from offset 44 on are the
    input payload, byte for byte, and the output is 44 bytes longer than
    the payload; and it does return for every payload and parameters for
    which the header's integers fit their fields.  Nothing in this depends
    on the content of the payload. *)
Theorem payload_preserved :
  forall payload mime_type,
    (forall out, convert_to_wav payload mime_type = Ret out ->
                 skipn 44 out = payload /\
                 List.length out = (44 + List.length payload)%nat /\
                 wav_header (Z.of_nat (List.length payload)) mime_type
                 = Ret (firstn 44 out)) /\
    (forall p, parse_audio_mime_type mime_type = Ret p ->
               fits (Z.of_nat (List.length payload)) p = true ->
               returns (convert_to_wav payload mime_type)).
Proof.
  intros payload mime_type.
  destruct (parse_returns mime_type) as [p Hp].
  split.
  - intros out Hout. rewrite (convert_to_wav_eq _ _ p Hp) in Hout.
    rewrite (wav_header_eq _ _ p Hp).
    destruct (fits _ p); [|discriminate Hout].
    injection Hout as <-. repeat split.
  - intros p' Hp' Hfits. rewrite (convert_to_wav_eq _ _ p' Hp'), Hfits.
    apply returns_Ret.
Qed.

Lemma payload_preserved_witness :
  exists out,
    convert_to_wav [x00; x00; x00; xff; xff; xff] (Some "audio/L16;rate=24000") = Ret out /\
    skipn 44 out = [x00; x00; x00; xff; xff; xff].
Proof.
  destruct (payload_preserved [x00; x00; x00; xff; xff; xff] (Some "audio/L16;rate=24000"))
    as [Hkeep Hret].
  destruct (Hret (mk_params 16 24000) eq_refl eq_refl) as [out Hout].
  exists out. split; [exact Hout|]. exact (proj1 (Hkeep out Hout)).
Defined.

(** C6, as stated, fails: ["audio/L-8"] parses to a depth of -8, the block
    align is -1 and packing it raises [struct.error]. *)
Lemma convert_to_wav_raises_on_negative_depth :
  parse_audio_mime_type (Some "audio/L-8") = Ret (mk_params (-8) 24000) /\
  convert_to_wav [] (Some "audio/L-8") = Raise StructError /\
  ~ returns (convert_to_wav [] (Some "audio/L-8")).
Proof.
  split; [reflexivity|]. split; [reflexivity|]. apply not_returns_Raise.
Qed.

(** C6, amended.  The encoder returns a byte sequence exactly when the
    integers of the header fit their unsigned fields, zero standing for the
    default; a depth that is not a multiple of 8, or zero, does not make it
    raise.  Otherwise (a negative or too large value, a payload of 4 GiB)
    it raises [struct.error]. *)
Theorem convert_to_wav_raises_iff_out_of_range :
  (forall payload mime_type p,
      parse_audio_mime_type mime_type = Ret p ->
      let n := Z.of_nat (List.length payload) in
      (36 + n < 2 ^ 32 /\ 0 <= eff_bits p < 2 ^ 16 /\ 0 <= eff_rate p < 2 ^ 32 /\
       eff_rate p * (eff_bits p / 8) < 2 ^ 32 ->
       returns (convert_to_wav payload mime_type)) /\
      (~ (36 + n < 2 ^ 32 /\ 0 <= eff_bits p < 2 ^ 16 /\ 0 <= eff_rate p < 2 ^ 32 /\
          eff_rate p * (eff_bits p / 8) < 2 ^ 32) ->
       convert_to_wav payload mime_type = Raise StructError)) /\
  returns (convert_to_wav [] (Some "audio/L12")) /\
  returns (convert_to_wav [] (Some "audio/L0;rate=0")) /\
  convert_to_wav [] (Some "audio/L-8") = Raise StructError /\
  convert_to_wav [] (Some "rate=-1") = Raise StructError /\
  convert_to_wav [] (Some "rate=4294967296") = Raise StructError.
Proof.
  split; [|split; [eexists; reflexivity | split; [eexists; reflexivity | repeat split]]].
  intros payload mime_type p Hp n.
  rewrite (convert_to_wav_eq _ _ p Hp). fold n.
  pose proof (fits_iff n p) as Hiff.
  assert (Hn : 0 <= n) by (unfold n; lia).
  split.
  - intros H. replace (fits n p) with true; [apply returns_Ret|].
    symmetry; apply Hiff. tauto.
  - intros H. destruct (fits n p); [|reflexivity].
    exfalso; apply H. destruct Hiff as [Hiff _]. specialize (Hiff eq_refl). tauto.
Qed.

Lemma convert_to_wav_raises_iff_out_of_range_witness :
  returns (convert_to_wav [x01] (Some "audio/L20;rate=8000")) /\
  convert_to_wav [x01] (Some "audio/L-16") = Raise StructError.
Proof.
  destruct convert_to_wav_raises_iff_out_of_range as [H _].
  split.
  - apply (H [x01] (Some "audio/L20;rate=8000") (mk_params 20 8000) eq_refl).
    vm_compute. intuition discriminate.
  - apply (H [x01] (Some "audio/L-16") (mk_params (-16) 24000) eq_refl).
    vm_compute. intuition discriminate.
Defined.

(** ** Values the encoder is given *)

(** C9, as stated, fails on its own example: the parser returns 0 and
    -100, but the encoder rejects the negative rate with [struct.error],
    and a depth of zero never reaches the header arithmetic: the header
    for ["audio/L0"] is the one for 16 bits. *)
Lemma encoder_rejects_or_replaces_parsed_values :
  parse_audio_mime_type (Some "audio/L0;rate=-100") = Ret (mk_params 0 (-100)) /\
  convert_to_wav [] (Some "audio/L0;rate=-100") = Raise StructError /\
  parse_audio_mime_type (Some "audio/L0") = Ret (mk_params 0 24000) /\
  convert_to_wav [] (Some "audio/L0") = Ret (wav_layout 0 16 24000).
Proof. repeat split. Qed.

(** C9, amended.  The parser validates no range: whatever integer [int]
    reads in the text after [audio/L], or after [rate=] in any letter
    case, zero and negative ones included, is stored as it was read
    ([audio/L0;rate=-100] gives 0 and -100; for integers of at most 4300
    digits, [audio/L<bits>;rate=<hz>] gives back both).  The encoder puts
    the default in place of a parsed zero (16 bits, 24000 Hz) and otherwise
    takes the parsed value as it is into bytes per sample, block align and
    byte rate, with no check of its own; the header is packed from these
    values, and packing raises [struct.error] when one of them is negative
    or too wide for its field. *)
Theorem parsed_values_unvalidated :
  (forall t v st,
      py_int t = Ret v ->
      parse_part ("audio/L" ++ t) st = Ret (mk_params v (rate st))) /\
  (forall pre t v st,
      lower pre = "rate=" -> py_int t = Ret v ->
      parse_part (pre ++ t) st = Ret (mk_params (bits_per_sample st) v)) /\
  (forall bits rate_hz : Z,
      (decimal_digits bits <= int_max_str_digits)%nat ->
      (decimal_digits rate_hz <= int_max_str_digits)%nat ->
      parse_audio_mime_type (Some ("audio/L" ++ py_str bits ++ ";rate=" ++ py_str rate_hz))
      = Ret (mk_params bits rate_hz)) /\
  parse_audio_mime_type (Some "audio/L0;rate=-100") = Ret (mk_params 0 (-100)) /\
  (forall payload mime_type p,
      parse_audio_mime_type mime_type = Ret p ->
      let n := Z.of_nat (List.length payload) in
      let bits := if (bits_per_sample p =? 0)%Z then 16 else bits_per_sample p in
      let sample_rate := if (rate p =? 0)%Z then 24000 else rate p in
      let bytes_per_sample := bits / 8 in
      let block_align := bytes_per_sample in
      let byte_rate := sample_rate * block_align in
      convert_to_wav payload mime_type =
      if in_range 4 (36 + n) && in_range 4 sample_rate && in_range 4 byte_rate
         && in_range 2 block_align && in_range 2 bits && in_range 4 n
      then Ret (wav_layout n bits sample_rate ++ payload)%list
      else Raise StructError).
Proof.
  split; [|split; [|split; [exact parse_canonical | split; [reflexivity|]]]].
  - intros t v st Hv. rewrite parse_part_eq.
    rewrite bits_of_literal_part, rate_of_literal_part, Hv. reflexivity.
  - intros pre t v st Hlow Hv. rewrite parse_part_eq.
    rewrite (rate_of_cased_part pre t Hlow), (bits_of_cased_rate_part pre t Hlow), Hv.
    reflexivity.
  - intros payload mime_type p Hp. cbv zeta.
    exact (convert_to_wav_eq payload mime_type p Hp).
Qed.

Lemma parsed_values_unvalidated_witness :
  parse_part "audio/L-0_8" (mk_params 16 9) = Ret (mk_params (-8) 9) /\
  parse_part "Rate= +000" (mk_params 16 9) = Ret (mk_params 16 0) /\
  parse_audio_mime_type (Some "audio/L-24;rate=0") = Ret (mk_params (-24) 0) /\
  convert_to_wav [x07] (Some "rate=0;audio/L-24") = Raise StructError /\
  convert_to_wav [x07] (Some "rate=0;audio/L12") = Ret (wav_layout 1 12 24000 ++ [x07])%list.
Proof.
  destruct parsed_values_unvalidated as (H1 & H2 & H3 & _ & H).
  split; [|split; [|split; [|split]]].
  - exact (H1 "-0_8" (-8) (mk_params 16 9) eq_refl).
  - exact (H2 "Rate=" " +000" 0 (mk_params 16 9) eq_refl eq_refl).
  - apply (H3 (-24) 0); vm_compute; lia.
  - exact (H [x07] (Some "rate=0;audio/L-24") (mk_params (-24) 0) eq_refl).
  - exact (H [x07] (Some "rate=0;audio/L12") (mk_params 12 0) eq_refl).
Defined.

(** ** The payload and the extension of the saved file *)

(** C8, as stated, fails: ["audio/mpeg"] is not a WAV type, the table maps
    it to [.mp3], and the bytes are saved as they came, not converted. *)
Lemma non_wav_type_saved_unconverted :
  startswith (lower "audio/mpeg") "audio/wav" = false /\
  guess_extension_default "audio/mpeg" = Some ".mp3" /\
  output_payload guess_extension_default [x01; x02] (Some "audio/mpeg") = Ret [x01; x02] /\
  convert_to_wav [x01; x02] (Some "audio/mpeg") <> Ret [x01; x02] /\
  text_to_speech_save guess_extension_default "0f" [[x01]; [x02]] (Some "audio/mpeg")
  = Saved "tts_0f.mp3" [x01; x02].
Proof. repeat split. discriminate. Qed.

(** C8, amended.  A MIME type that begins with [audio/wav], in any letter
    case, has its bytes passed through unchanged.  A MIME type that does
    not, and for which the table infers no extension, an absent type
    included, has its bytes converted with [convert_to_wav],
    [audio/L16;rate=24000] standing for an absent type.  When the table
    infers an extension other than [.wav] the bytes are passed through
    unchanged.  The extension is the one the table infers for the MIME
    type, [.wav] when it infers none, and the file is named [tts_], the
    identifier, the extension. *)
Theorem output_policy :
  forall (guess_extension : string -> option string) (uuid_hex : string)
         (raw : list byte) (mime_type : option string),
    (truthy mime_type = true ->
     startswith (lower (str_or mime_type "")) "audio/wav" = true ->
     output_payload guess_extension raw mime_type = Ret raw) /\
    (truthy mime_type && startswith (lower (str_or mime_type "")) "audio/wav" = false ->
     guess_extension (str_or mime_type "") = None ->
     output_payload guess_extension raw mime_type =
     convert_to_wav raw (Some (str_or mime_type "audio/L16;rate=24000"))) /\
    (lower (output_ext guess_extension mime_type) <> ".wav" ->
     output_payload guess_extension raw mime_type = Ret raw) /\
    (guess_extension "" = None ->
     output_payload guess_extension raw None =
     convert_to_wav raw (Some "audio/L16;rate=24000")) /\
    (guess_extension (str_or mime_type "") = None ->
     output_ext guess_extension mime_type = ".wav") /\
    (forall ext, guess_extension (str_or mime_type "") = Some ext -> ext <> "" ->
                 output_ext guess_extension mime_type = ext) /\
    (forall chunks payload,
        chunks <> [] ->
        output_payload guess_extension (List.concat chunks) mime_type = Ret payload ->
        text_to_speech_save guess_extension uuid_hex chunks mime_type =
        Saved ("tts_" ++ uuid_hex ++ output_ext guess_extension mime_type) payload).
Proof.
  intros guess_extension uuid_hex raw mime_type.
  split; [|split; [|split; [|split; [|split; [|split]]]]].
  - intros Ht Hw. unfold output_payload. rewrite Ht, Hw.
    destruct (lower (output_ext guess_extension mime_type) =? ".wav"); reflexivity.
  - intros Hnw Hnone. unfold output_payload, output_ext. rewrite Hnw, Hnone.
    reflexivity.
  - intros Hext. unfold output_payload.
    destruct (String.eqb_spec (lower (output_ext guess_extension mime_type)) ".wav");
      [contradiction | reflexivity].
  - intros Hnone. unfold output_payload, output_ext. cbn [str_or]. rewrite Hnone.
    reflexivity.
  - intros Hnone. unfold output_ext. rewrite Hnone. reflexivity.
  - intros ext Hsome Hne. unfold output_ext. rewrite Hsome.
    destruct ext; [contradiction | reflexivity].
  - intros chunks payload Hne Hpay. unfold text_to_speech_save. rewrite Hpay.
    destruct chunks; [contradiction | reflexivity].
Qed.

Lemma output_policy_witness :
  output_payload guess_extension_default [x01] (Some "Audio/WAV; codec=1") = Ret [x01] /\
  output_payload guess_extension_default [x01] (Some "audio/L24;rate=8000") =
  convert_to_wav [x01] (Some "audio/L24;rate=8000") /\
  output_payload guess_extension_default [x01] (Some "audio/basic") = Ret [x01] /\
  output_payload guess_extension_default [x01] None =
  convert_to_wav [x01] (Some "audio/L16;rate=24000") /\
  output_ext guess_extension_default (Some "audio/L24;rate=8000") = ".wav" /\
  output_ext guess_extension_default (Some "audio/basic") = ".au" /\
  text_to_speech_save guess_extension_default "0f" [[x01]] (Some "audio/basic") =
  Saved "tts_0f.au" [x01].
Proof.
  pose proof (output_policy guess_extension_default "0f" [x01]) as P.
  destruct (P (Some "Audio/WAV; codec=1")) as (W1 & _).
  destruct (P (Some "audio/L24;rate=8000")) as (_ & L2 & _ & _ & L5 & _).
  destruct (P (Some "audio/basic")) as (_ & _ & B3 & _ & _ & B6 & B7).
  destruct (P None) as (_ & _ & _ & N4 & _).
  split; [|split; [|split; [|split; [|split; [|split]]]]].
  - apply W1; reflexivity.
  - apply L2; reflexivity.
  - apply B3. vm_compute. discriminate.
  - apply N4. reflexivity.
  - apply L5. reflexivity.
  - apply B6; [reflexivity | discriminate].
  - apply (B7 [[x01]] [x01]); [discriminate | reflexivity].
Defined.

(** * Further properties of the code *)

(** ** The streamed response *)

Lemma collect_chunk_eq (st : list (list byte) * option string) (c : chunk) :
  collect_chunk st c =
  ((fst st ++ filter nonempty [chunk_bytes c])%list,
   match chunk_mime c with Some m => Some m | None => snd st end).
Proof.
  unfold collect_chunk, chunk_bytes, chunk_mime, chunk_blob.
  destruct st as [a m]. cbn [fst snd].
  destruct (chunk_candidates c) as [[|c0 cs]|]; cbn; rewrite ?app_nil_r; try reflexivity.
  destruct (candidate_content c0) as [ct|]; cbn; rewrite ?app_nil_r; try reflexivity.
  destruct (content_parts ct) as [[|p0 ps]|]; cbn; rewrite ?app_nil_r; try reflexivity.
  destruct (part_inline_data p0) as [bl|]; cbn; rewrite ?app_nil_r; try reflexivity.
  destruct (blob_data bl) as [[|x d]|]; cbn; rewrite ?app_nil_r; try reflexivity.
  destruct (blob_mime_type bl) as [[|ch mt]|]; reflexivity.
Qed.

Lemma collect_from (chunks : list chunk) (st : list (list byte) * option string) :
  fold_left collect_chunk chunks st =
  ((fst st ++ filter nonempty (map chunk_bytes chunks))%list,
   fold_left last_mime chunks (snd st)).
Proof.
  revert st; induction chunks as [|c cs IH]; intros st.
  - cbn. rewrite app_nil_r. destruct st; reflexivity.
  - cbn [fold_left]. rewrite IH, collect_chunk_eq. cbn [fst snd map].
    rewrite <- app_assoc. f_equal. f_equal.
    cbn [filter]. destruct (nonempty (chunk_bytes c)); reflexivity.
Qed.

Lemma concat_filter_nonempty (l : list (list byte)) :
  List.concat (filter nonempty l) = List.concat l.
Proof.
  induction l as [|d l IH]; [reflexivity|].
  destruct d as [|x d]; cbn; [exact IH | rewrite IH; reflexivity].
Qed.

(** X1.  The loop keeps, in order of arrival, the bytes of every chunk
    whose first candidate's first part carries inline data, and nothing
    else: no chunk is kept empty, the joined audio is the concatenation of
    these bytes, nothing is collected exactly when no such chunk has
    bytes, and two chunks that agree on that first part are treated
    alike, whatever their other parts and candidates hold. *)
Theorem collected_audio :
  forall chunks,
    fst (collect chunks) = filter nonempty (map chunk_bytes chunks) /\
    Forall (fun d => d <> []) (fst (collect chunks)) /\
    List.concat (fst (collect chunks)) = List.concat (map chunk_bytes chunks) /\
    (fst (collect chunks) = [] <-> forall c, In c chunks -> chunk_bytes c = []) /\
    (forall st c c', chunk_blob c = chunk_blob c' ->
                     collect_chunk st c = collect_chunk st c').
Proof.
  intros chunks.
  assert (E : fst (collect chunks) = filter nonempty (map chunk_bytes chunks)).
  { unfold collect. rewrite collect_from. reflexivity. }
  split; [exact E|]. rewrite E.
  split; [|split; [apply concat_filter_nonempty|split]].
  - apply Forall_forall. intros d Hd. apply filter_In in Hd.
    destruct Hd as [_ Hd]. destruct d; [discriminate Hd | discriminate].
  - split.
    + intros Hnil c Hc.
      destruct (chunk_bytes c) as [|x d] eqn:Hb; [reflexivity|].
      assert (Hin : In (x :: d) (filter nonempty (map chunk_bytes chunks))).
      { apply filter_In. split; [|reflexivity]. rewrite <- Hb. apply in_map, Hc. }
      rewrite Hnil in Hin. contradiction.
    + intros Hall. induction chunks as [|c cs IH]; [reflexivity|].
      cbn. rewrite (Hall c (or_introl eq_refl)). cbn. apply IH.
      * unfold collect. rewrite collect_from. reflexivity.
      * intros c' Hc'. apply Hall. right; exact Hc'.
  - intros st c c' Hblob. rewrite !collect_chunk_eq.
    unfold chunk_bytes, chunk_mime. rewrite Hblob. reflexivity.
Qed.

Lemma last_mime_none (chunks : list chunk) (acc : option string) :
  (forall c, In c chunks -> chunk_mime c = None) ->
  fold_left last_mime chunks acc = acc.
Proof.
  revert acc; induction chunks as [|c cs IH]; intros acc H; [reflexivity|].
  cbn. unfold last_mime at 2. rewrite (H c (or_introl eq_refl)).
  apply IH. intros c' Hc'. apply H. right; exact Hc'.
Qed.

Lemma chunk_mime_truthy (c : chunk) (m : string) : chunk_mime c = Some m -> m <> "".
Proof.
  unfold chunk_mime. destruct (chunk_blob c) as [bl|]; [|discriminate].
  destruct (blob_data bl) as [[|x d]|]; try discriminate.
  destruct (blob_mime_type bl) as [[|ch mt]|]; cbn; try discriminate.
  intros [= <-]. discriminate.
Qed.

(** X2.  The MIME type the loop ends with is the one reported by the last
    chunk that carries both audio bytes and a non-empty MIME type; it is
    [None] when no chunk does, and never the empty string.  A chunk
    without audio bytes does not change it, whatever type it reports. *)
Theorem collected_mime_type :
  (forall chunks before c after m,
      chunks = (before ++ c :: after)%list ->
      chunk_mime c = Some m ->
      (forall c', In c' after -> chunk_mime c' = None) ->
      snd (collect chunks) = Some m) /\
  (forall chunks,
      (forall c, In c chunks -> chunk_mime c = None) -> snd (collect chunks) = None) /\
  (forall chunks, snd (collect chunks) <> Some "") /\
  (forall st c, chunk_bytes c = [] -> collect_chunk st c = st).
Proof.
  split; [|split; [|split]].
  - intros chunks before c after m -> Hc Hafter.
    unfold collect. rewrite collect_from. cbn [snd].
    rewrite fold_left_app. cbn [fold_left]. unfold last_mime at 2. rewrite Hc.
    apply last_mime_none, Hafter.
  - intros chunks H. unfold collect. rewrite collect_from. cbn [snd].
    apply last_mime_none, H.
  - intros chunks. unfold collect. rewrite collect_from. cbn [snd].
    assert (G : forall acc, acc <> Some "" -> fold_left last_mime chunks acc <> Some "").
    { induction chunks as [|c cs IH]; intros acc Hacc; [exact Hacc|].
      cbn. apply IH. unfold last_mime.
      destruct (chunk_mime c) as [m|] eqn:Hm; [|exact Hacc].
      intros [= ->]. exact (chunk_mime_truthy c "" Hm eq_refl). }
    apply G. discriminate.
  - intros st c Hb. rewrite collect_chunk_eq, Hb. cbn. rewrite app_nil_r.
    replace (chunk_mime c) with (@None string); [destruct st; reflexivity|].
    unfold chunk_mime. unfold chunk_bytes in Hb.
    destruct (chunk_blob c) as [bl|]; [|reflexivity].
    destruct (blob_data bl) as [[|x d]|]; try reflexivity. discriminate Hb.
Qed.

Lemma collected_mime_type_witness :
  snd (collect
         [ mk_chunk (Some [mk_candidate (Some (mk_content (Some
             [mk_part (Some (mk_blob (Some "audio/L16;rate=24000") (Some [x01])))])))]);
           mk_chunk (Some [mk_candidate (Some (mk_content (Some
             [mk_part (Some (mk_blob (Some "audio/mpeg") (Some [])))])))]);
           mk_chunk None ])
  = Some "audio/L16;rate=24000".
Proof.
  destruct collected_mime_type as [H _].
  eapply (H _ [] _ _ "audio/L16;rate=24000").
  - reflexivity.
  - reflexivity.
  - intros c' [<- | [<- | []]]; reflexivity.
Defined.

Lemma collected_audio_aux (chunks : list chunk) :
  fst (collect chunks) = filter nonempty (map chunk_bytes chunks) /\
  List.concat (fst (collect chunks)) = List.concat (map chunk_bytes chunks).
Proof.
  assert (E : fst (collect chunks) = filter nonempty (map chunk_bytes chunks)).
  { unfold collect. rewrite collect_from. reflexivity. }
  split; [exact E|]. rewrite E. apply concat_filter_nonempty.
Qed.

Lemma empty_collect (chunks : list chunk) :
  (forall c, In c chunks -> chunk_bytes c = []) ->
  filter nonempty (map chunk_bytes chunks) = [].
Proof.
  induction chunks as [|c cs IH]; intros Hall; [reflexivity|].
  cbn. rewrite (Hall c (or_introl eq_refl)). cbn. apply IH.
  intros c' Hc'. apply Hall. right; exact Hc'.
Qed.

(** ** [text_to_speech] and its endpoint *)

Lemma text_to_speech_save_name guess_extension uuid_hex audio_chunks mime_type f p :
  text_to_speech_save guess_extension uuid_hex audio_chunks mime_type = Saved f p ->
  f = "tts_" ++ uuid_hex ++ output_ext guess_extension mime_type /\
  output_payload guess_extension (List.concat audio_chunks) mime_type = Ret p /\
  audio_chunks <> [].
Proof.
  unfold text_to_speech_save. destruct audio_chunks as [|d ds]; [discriminate|].
  destruct (output_payload _ _ mime_type) as [payload|e]; [|discriminate].
  intros [= <- <-]. repeat split. discriminate.
Qed.

Lemma text_to_speech_cases api_key stream guess_extension uuid_hex fs_error describe :
  let run := text_to_speech api_key stream guess_extension uuid_hex fs_error describe in
  (exists msg, run = (tts_failure msg, None)) \/
  (exists f p chunks,
      stream = inl chunks /\
      f = "tts_" ++ uuid_hex ++ output_ext guess_extension (snd (collect chunks)) /\
      output_payload guess_extension (List.concat (map chunk_bytes chunks))
        (snd (collect chunks)) = Ret p /\
      ((fs_error = None /\
        run = (mk_tts_result true "Speech synthesized successfully." (Some f),
               Some (f, p))) \/
       (exists msg written,
           fs_error = Some (FsBroken msg written) /\
           run = (tts_failure ("Error during TTS: " ++ msg),
                  Some (f, firstn written p))))).
Proof.
  unfold text_to_speech.
  destruct (truthy api_key); [|left; eexists; reflexivity].
  destruct stream as [chunks|msg]; [|left; eexists; reflexivity].
  destruct (collected_audio_aux chunks) as [_ Hcat].
  destruct (collect chunks) as [audio_chunks mime_type] eqn:Hcol. cbn [fst snd] in *.
  destruct (text_to_speech_save guess_extension uuid_hex audio_chunks mime_type)
    as [|f p|e] eqn:Hsave; try (left; eexists; reflexivity).
  destruct (text_to_speech_save_name _ _ _ _ _ _ Hsave) as (Hname & Hpay & _).
  destruct fs_error as [[msg|msg written]|]; [left; eexists; reflexivity | |];
    right; exists f, p, chunks; rewrite Hcol, <- Hcat; cbn [snd];
    (split; [reflexivity|]); (split; [exact Hname|]); (split; [exact Hpay|]).
  - right. exists msg, written. split; reflexivity.
  - left. split; reflexivity.
Qed.

Lemma text_to_speech_no_audio api_key chunks guess_extension uuid_hex fs_error describe :
  truthy api_key = true ->
  (forall c, In c chunks -> chunk_bytes c = []) ->
  text_to_speech api_key (inl chunks) guess_extension uuid_hex fs_error describe
  = (tts_failure "No audio data received from model.", None).
Proof.
  intros Hkey Hall. unfold text_to_speech. rewrite Hkey.
  destruct (collected_audio_aux chunks) as [Hfst _].
  rewrite (empty_collect chunks Hall) in Hfst.
  destruct (collect chunks) as [audio_chunks mime_type]. cbn [fst] in Hfst.
  subst audio_chunks. reflexivity.
Qed.

(** X3.  Once [load_dotenv()] has returned, [text_to_speech] reports
    success exactly when it names a file, and the file it names is then in
    the directory with the whole payload: its name is [tts_], the
    identifier and the extension chosen for the collected MIME type, its
    content the payload chosen for the collected audio.  A failed call
    leaves nothing behind, but for one case: when writing breaks after the
    file was opened, the file stays with the first bytes of the payload,
    and the result, [Error during TTS: ] and the text of the exception,
    does not name it.  So, as long as no write breaks midway, the call
    reports success exactly when it leaves a file.  Without an API key, or
    when the stream carries no audio bytes, it fails with its fixed message
    and writes nothing. *)
Theorem text_to_speech_result :
  forall api_key stream guess_extension uuid_hex fs_error describe,
    let run := text_to_speech api_key stream guess_extension uuid_hex fs_error describe in
    (tts_success (fst run) = true <-> exists f, tts_filename (fst run) = Some f) /\
    (forall f, tts_filename (fst run) = Some f ->
       exists chunks p,
         stream = inl chunks /\
         f = "tts_" ++ uuid_hex ++ output_ext guess_extension (snd (collect chunks)) /\
         output_payload guess_extension (List.concat (map chunk_bytes chunks))
           (snd (collect chunks)) = Ret p /\
         snd run = Some (f, p)) /\
    (tts_success (fst run) = false ->
     snd run = None \/
     exists msg written chunks p,
       fs_error = Some (FsBroken msg written) /\
       stream = inl chunks /\
       output_payload guess_extension (List.concat (map chunk_bytes chunks))
         (snd (collect chunks)) = Ret p /\
       fst run = tts_failure ("Error during TTS: " ++ msg) /\
       snd run = Some ("tts_" ++ uuid_hex ++ output_ext guess_extension (snd (collect chunks)),
                       firstn written p)) /\
    ((forall msg written, fs_error <> Some (FsBroken msg written)) ->
     (tts_success (fst run) = true <-> exists f p, snd run = Some (f, p))) /\
    (truthy api_key = false ->
     run = (tts_failure "Missing GOOGLE_API_KEY in environment.", None)) /\
    (forall chunks, truthy api_key = true -> stream = inl chunks ->
       (forall c, In c chunks -> chunk_bytes c = []) ->
       run = (tts_failure "No audio data received from model.", None)).
Proof.
  intros api_key stream guess_extension uuid_hex fs_error describe run.
  assert (Hkeyless : truthy api_key = false ->
                     run = (tts_failure "Missing GOOGLE_API_KEY in environment.", None)).
  { intros Hkey. unfold run, text_to_speech. rewrite Hkey. reflexivity. }
  assert (Hsilent : forall chunks, truthy api_key = true -> stream = inl chunks ->
            (forall c, In c chunks -> chunk_bytes c = []) ->
            run = (tts_failure "No audio data received from model.", None)).
  { intros chunks Hkey Hs Hall. unfold run. rewrite Hs.
    apply text_to_speech_no_audio; assumption. }
  destruct (text_to_speech_cases api_key stream guess_extension uuid_hex fs_error describe)
    as [[msg Hrun]
       | (f & p & chunks & Hstream & Hname & Hpay
          & [[Hfs Hrun] | (msg & written & Hfs & Hrun)])];
    fold run in Hrun; rewrite Hrun; cbn [fst snd tts_success tts_filename tts_failure].
  - split; [split; [discriminate | intros [f H]; discriminate H]|].
    split; [intros f H; discriminate H|].
    split; [intros _; left; reflexivity|].
    split; [|split; [rewrite <- Hrun; exact Hkeyless | rewrite <- Hrun; exact Hsilent]].
    intros _. split; [discriminate | intros (f & p & H); discriminate H].
  - split; [split; [intros _; exists f; reflexivity | reflexivity]|].
    split; [intros f' [= <-]; exists chunks, p; repeat split; assumption|].
    split; [discriminate|].
    split; [|split; [rewrite <- Hrun; exact Hkeyless | rewrite <- Hrun; exact Hsilent]].
    intros _. split; [intros _; exists f, p; reflexivity | reflexivity].
  - split; [split; [discriminate | intros [f' H]; discriminate H]|].
    split; [intros f' H; discriminate H|].
    split.
    { intros _. right. exists msg, written, chunks, p. rewrite <- Hname.
      repeat split; assumption. }
    split; [|split; [rewrite <- Hrun; exact Hkeyless | rewrite <- Hrun; exact Hsilent]].
    intros Hnever. exfalso. exact (Hnever msg written Hfs).
Qed.

Lemma text_to_speech_result_witness :
  let chunks :=
    [ mk_chunk (Some [mk_candidate (Some (mk_content (Some
        [mk_part (Some (mk_blob (Some "audio/mpeg") (Some [x01; x02])))])))]) ] in
  (exists p,
      output_payload guess_extension_default [x01; x02] (Some "audio/mpeg") = Ret p /\
      snd (text_to_speech (Some "key") (inl chunks) guess_extension_default "0f" None
             (fun _ => ""))
      = Some ("tts_0f.mp3", p)) /\
  (tts_success
     (fst (text_to_speech (Some "key") (inl chunks) guess_extension_default "0f"
             (Some (FsRefused "Permission denied")) (fun _ => ""))) = true
   <-> exists f p,
         snd (text_to_speech (Some "key") (inl chunks) guess_extension_default "0f"
                (Some (FsRefused "Permission denied")) (fun _ => ""))
         = Some (f, p)) /\
  text_to_speech None (inl chunks) guess_extension_default "0f" None (fun _ => "")
  = (tts_failure "Missing GOOGLE_API_KEY in environment.", None) /\
  text_to_speech (Some "key") (inl [mk_chunk None; mk_chunk (Some [])])
    guess_extension_default "0f" None (fun _ => "")
  = (tts_failure "No audio data received from model.", None).
Proof.
  intros chunks. split; [|split; [|split]].
  - destruct (text_to_speech_result (Some "key") (inl chunks) guess_extension_default
                "0f" None (fun _ => "")) as (_ & H & _).
    destruct (H "tts_0f.mp3" eq_refl) as (chunks' & p & Hs & _ & Hp & Hrun).
    injection Hs as <-. exists p. split; [exact Hp | exact Hrun].
  - destruct (text_to_speech_result (Some "key") (inl chunks) guess_extension_default
                "0f" (Some (FsRefused "Permission denied")) (fun _ => ""))
      as (_ & _ & _ & H & _).
    apply H. intros msg written E. discriminate E.
  - destruct (text_to_speech_result None (inl chunks) guess_extension_default
                "0f" None (fun _ => "")) as (_ & _ & _ & _ & H & _).
    apply H. reflexivity.
  - destruct (text_to_speech_result (Some "key") (inl [mk_chunk None; mk_chunk (Some [])])
                guess_extension_default "0f" None (fun _ => "")) as (_ & _ & _ & _ & _ & H).
    apply (H [mk_chunk None; mk_chunk (Some [])]); try reflexivity.
    intros c [<- | [<- | []]]; reflexivity.
Defined.

Lemma collect_nonempty (chunks : list chunk) :
  (exists c, In c chunks /\ chunk_bytes c <> []) -> fst (collect chunks) <> [].
Proof.
  intros (c & Hc & Hne). destruct (collected_audio_aux chunks) as [-> _].
  intros Hnil.
  assert (Hin : In (chunk_bytes c) (filter nonempty (map chunk_bytes chunks))).
  { apply filter_In. split; [apply in_map, Hc|].
    destruct (chunk_bytes c); [contradiction | reflexivity]. }
  rewrite Hnil in Hin. contradiction.
Qed.

(** X4.  With an API key, a stream that carries audio bytes, a collected
    MIME type for which the table knows no extension and that does not
    begin with [audio/wav], and header integers that fit their fields, the
    call succeeds and the file [tts_<id>.wav] holds the 44-byte header for
    the parsed depth and rate followed by the streamed bytes in order of
    arrival: 44 bytes more than the stream carried. *)
Theorem streamed_pcm_saved_as_wav :
  forall api_key chunks guess_extension uuid_hex describe p,
    let mime_type := snd (collect chunks) in
    let raw := List.concat (map chunk_bytes chunks) in
    truthy api_key = true ->
    (exists c, In c chunks /\ chunk_bytes c <> []) ->
    guess_extension (str_or mime_type "") = None ->
    startswith (lower (str_or mime_type "")) "audio/wav" = false ->
    parse_audio_mime_type (Some (str_or mime_type "audio/L16;rate=24000")) = Ret p ->
    fits (Z.of_nat (List.length raw)) p = true ->
    exists file,
      text_to_speech api_key (inl chunks) guess_extension uuid_hex None describe
      = (mk_tts_result true "Speech synthesized successfully."
           (Some ("tts_" ++ uuid_hex ++ ".wav")),
         Some ("tts_" ++ uuid_hex ++ ".wav", file)) /\
      file = (header_bytes (Z.of_nat (List.length raw)) p ++ raw)%list /\
      List.length file = (44 + List.length raw)%nat /\
      skipn 44 file = raw.
Proof.
  intros api_key chunks guess_extension uuid_hex describe p mime_type raw
         Hkey Hdata Hguess Hnotwav Hparse Hfits.
  eexists. split; [|split; [reflexivity | split; [|reflexivity]]].
  - unfold text_to_speech. rewrite Hkey.
    pose proof (collect_nonempty chunks Hdata) as Hne.
    destruct (collected_audio_aux chunks) as [_ Hcat].
    fold raw in Hcat. unfold mime_type in *.
    destruct (collect chunks) as [audio_chunks m]. cbn [fst snd] in *.
    unfold text_to_speech_save.
    destruct audio_chunks as [|d ds]; [contradiction|].
    assert (Hext : output_ext guess_extension m = ".wav").
    { unfold output_ext. rewrite Hguess. reflexivity. }
    unfold output_payload. rewrite Hext, Hnotwav, andb_false_r. cbn [lower String.eqb].
    change (lower ".wav" =? ".wav") with true. cbv iota.
    rewrite Hcat, (convert_to_wav_eq raw _ p Hparse), Hfits. reflexivity.
  - rewrite length_app. reflexivity.
Qed.

Lemma streamed_pcm_saved_as_wav_witness :
  let chunk_of d :=
    mk_chunk (Some [mk_candidate (Some (mk_content (Some
      [mk_part (Some (mk_blob (Some "audio/L16;rate=24000") (Some d)))])))]) in
  exists file,
    text_to_speech (Some "key") (inl [chunk_of [x01; x02]; chunk_of [x03; x04]])
      guess_extension_default "0f" None (fun _ => "")
    = (mk_tts_result true "Speech synthesized successfully." (Some "tts_0f.wav"),
       Some ("tts_0f.wav", file)) /\
    List.length file = 48%nat /\
    skipn 44 file = [x01; x02; x03; x04].
Proof.
  intros chunk_of.
  destruct (streamed_pcm_saved_as_wav (Some "key")
              [chunk_of [x01; x02]; chunk_of [x03; x04]]
              guess_extension_default "0f" (fun _ => "") (mk_params 16 24000))
    as (file & Hrun & _ & Hlen & Hskip); try reflexivity.
  - exists (chunk_of [x01; x02]). split; [left; reflexivity | discriminate].
  - exists file. repeat split; assumption.
Defined.

(** X5.  A MIME type that does not begin with [audio/wav] but for which the
    extension is [.wav], and none of whose parts gives a depth or a rate
    ([audio/x-wav], the type the table itself lists for [.wav], is one),
    has its bytes wrapped in a new header for 16 bits and 24000 Hz,
    whatever the bytes are: audio that is already a WAV file is saved as a
    WAV file whose samples begin with the original header. *)
Theorem wav_extension_forces_wrapping :
  forall guess_extension raw m,
    m <> "" ->
    startswith (lower m) "audio/wav" = false ->
    lower (output_ext guess_extension (Some m)) = ".wav" ->
    (forall s, In s (mime_parts (Some m)) ->
               rate_of_part s = None /\ bits_of_part s = None) ->
    36 + Z.of_nat (List.length raw) < 2 ^ 32 ->
    output_payload guess_extension raw (Some m)
    = Ret (wav_layout (Z.of_nat (List.length raw)) 16 24000 ++ raw)%list.
Proof.
  intros guess_extension raw m Hne Hnotwav Hext Hparts Hlen.
  assert (Hstr : str_or (Some m) "" = m) by (destruct m; [contradiction | reflexivity]).
  assert (Hstr' : str_or (Some m) "audio/L16;rate=24000" = m)
    by (destruct m; [contradiction | reflexivity]).
  unfold output_payload. rewrite Hext, Hstr, Hstr', Hnotwav, andb_false_r.
  change (".wav" =? ".wav") with true. cbv iota.
  assert (Hp : parse_audio_mime_type (Some m) = Ret (mk_params 16 24000)).
  { rewrite parse_eq. f_equal. f_equal.
    - apply last_set_none. intros q Hq. apply (Hparts q Hq).
    - apply last_set_none. intros q Hq. apply (Hparts q Hq). }
  rewrite (convert_to_wav_eq raw _ _ Hp).
  replace (fits (Z.of_nat (List.length raw)) (mk_params 16 24000)) with true;
    [reflexivity|].
  symmetry. apply fits_iff. cbn. split; [lia|]. split; [exact Hlen|]. lia.
Qed.

Lemma wav_extension_forces_wrapping_witness :
  output_payload guess_extension_default (bytes_lit "RIFF") (Some "audio/x-wav")
  = Ret (wav_layout 4 16 24000 ++ bytes_lit "RIFF")%list.
Proof.
  apply wav_extension_forces_wrapping.
  - discriminate.
  - reflexivity.
  - reflexivity.
  - intros s [<- | []]. split; reflexivity.
  - reflexivity.
Defined.

(** The route function: 200 with the name and the URL of the file when
    [text_to_speech] reports success, 500 with the failed result
    otherwise. *)
Lemma text_to_speach_endpoint_cases api_key stream guess_extension uuid_hex fs_error
    describe url_for :
  let run := text_to_speech api_key stream guess_extension uuid_hex fs_error describe in
  let resp := text_to_speach_endpoint api_key stream guess_extension uuid_hex fs_error
                describe url_for in
  (tts_success (fst run) = false /\ resp = (500, TtsError (fst run))) \/
  (exists f p chunks,
      stream = inl chunks /\
      output_payload guess_extension (List.concat (map chunk_bytes chunks))
        (snd (collect chunks)) = Ret p /\
      tts_success (fst run) = true /\
      snd run = Some (f, p) /\
      resp = (200, TtsCreated "Speech synthesized successfully." f
                     (match url_for f with
                      | Some u => u
                      | None => "/public/" ++ f
                      end))).
Proof.
  intros run resp. unfold resp, text_to_speach_endpoint. fold run.
  destruct (text_to_speech_cases api_key stream guess_extension uuid_hex fs_error describe)
    as [[msg Hrun]
       | (f & p & chunks & Hstream & Hname & Hpay
          & [[Hfs Hrun] | (msg & written & Hfs & Hrun)])];
    fold run in Hrun; rewrite Hrun.
  - left. split; reflexivity.
  - right. exists f, p, chunks.
    assert (Ht : truthy (Some f) = true) by (rewrite Hname; reflexivity).
    assert (Hs : str_or (Some f) "" = f) by (rewrite Hname; reflexivity).
    cbn [fst snd tts_success tts_filename tts_message andb]. rewrite Ht, Hs.
    repeat split; assumption.
  - left. split; reflexivity.
Qed.

(** X6.  The [/text_to_speach] route answers 422, 200 or 500.  It answers
    422 exactly when [text] or [voice_name] is missing or empty; the
    provider is then not asked and nothing is written.  Otherwise it
    answers 200 exactly when [text_to_speech] reports success: the answer
    then names the file, which holds the whole payload, and gives the URL
    the router builds for it, or [/public/<filename>] when the router
    raises.  It answers 500 with the failed result unchanged in every
    other case; what [text_to_speech] left in the directory is left
    there. *)
Theorem text_to_speach_route_status :
  forall api_key provider guess_extension uuid_hex fs_error describe url_for
         text voice_name,
    let resp := text_to_speach_route api_key provider guess_extension uuid_hex fs_error
                  describe url_for text voice_name in
    (status (fst resp) = 422 \/ status (fst resp) = 200 \/ status (fst resp) = 500) /\
    (status (fst resp) = 422 <-> truthy text = false \/ truthy voice_name = false) /\
    (status (fst resp) = 422 -> resp = (Unprocessable, None)) /\
    (forall t v,
        text = Some t -> voice_name = Some v -> t <> "" -> v <> "" ->
        let run := text_to_speech api_key (provider t v) guess_extension uuid_hex
                     fs_error describe in
        snd resp = snd run /\
        (status (fst resp) = 200 <-> tts_success (fst run) = true) /\
        (status (fst resp) = 200 ->
         exists f p chunks,
           provider t v = inl chunks /\
           output_payload guess_extension (List.concat (map chunk_bytes chunks))
             (snd (collect chunks)) = Ret p /\
           snd resp = Some (f, p) /\
           fst resp = Handled (200, TtsCreated "Speech synthesized successfully." f
                                      (match url_for f with
                                       | Some u => u
                                       | None => "/public/" ++ f
                                       end))) /\
        (status (fst resp) = 500 ->
         fst resp = Handled (500, TtsError (fst run)) /\
         tts_success (fst run) = false)).
Proof.
  intros api_key provider guess_extension uuid_hex fs_error describe url_for
         text voice_name resp.
  unfold resp, text_to_speach_route, required_str.
  destruct (truthy text) eqn:Htext.
  2:{ cbn [fst snd status]. split; [left; reflexivity|].
      split; [split; [intros _; left; reflexivity | reflexivity]|].
      split; [reflexivity|].
      intros t v -> _ Ht _. destruct t; [contradiction | discriminate Htext]. }
  destruct text as [t0|]; [|discriminate Htext].
  destruct (truthy voice_name) eqn:Hvoice.
  2:{ cbn [fst snd status]. split; [left; reflexivity|].
      split; [split; [intros _; right; reflexivity | reflexivity]|].
      split; [reflexivity|].
      intros t v _ -> _ Hv. destruct v; [contradiction | discriminate Hvoice]. }
  destruct voice_name as [v0|]; [|discriminate Hvoice].
  cbv zeta. cbn [fst snd status].
  destruct (text_to_speach_endpoint_cases api_key (provider t0 v0) guess_extension
              uuid_hex fs_error describe url_for)
    as [[Hfail Hresp] | (f & p & chunks & Hstream & Hpay & Hok & Hdisk & Hresp)];
    rewrite Hresp; cbn [fst].
  - split; [right; right; reflexivity|].
    split; [split; [discriminate | intros [H | H]; discriminate H]|].
    split; [discriminate|].
    intros t v [= <-] [= <-] _ _. cbv zeta.
    split; [reflexivity|].
    split; [split; [discriminate | rewrite Hfail; discriminate]|].
    split; [discriminate|].
    intros _. split; [reflexivity | exact Hfail].
  - split; [right; left; reflexivity|].
    split; [split; [discriminate | intros [H | H]; discriminate H]|].
    split; [discriminate|].
    intros t v [= <-] [= <-] _ _. cbv zeta.
    split; [reflexivity|].
    split; [split; [intros _; exact Hok | reflexivity]|].
    split; [|discriminate].
    intros _. exists f, p, chunks. repeat split; assumption.
Qed.

Lemma text_to_speach_route_status_witness :
  let chunks :=
    [ mk_chunk (Some [mk_candidate (Some (mk_content (Some
        [mk_part (Some (mk_blob None (Some [x01; x02])))])))]) ] in
  let route fs_error :=
    text_to_speach_route (Some "key") (fun _ _ => inl chunks) guess_extension_default
      "0f" fs_error (fun _ => "") (fun _ => None) in
  route None (Some "hello") (Some "") = (Unprocessable, None) /\
  status (fst (route None (Some "hello") (Some "Kore"))) = 200 /\
  fst (route (Some (FsBroken "No space left on device" 16)) (Some "hello") (Some "Kore"))
  = Handled (500, TtsError (tts_failure "Error during TTS: No space left on device")).
Proof.
  intros chunks route. split; [|split].
  - destruct (text_to_speach_route_status (Some "key") (fun _ _ => inl chunks)
                guess_extension_default "0f" None (fun _ => "") (fun _ => None)
                (Some "hello") (Some "")) as (_ & H422 & Hnone & _).
    apply Hnone. apply H422. right. reflexivity.
  - destruct (text_to_speach_route_status (Some "key") (fun _ _ => inl chunks)
                guess_extension_default "0f" None (fun _ => "") (fun _ => None)
                (Some "hello") (Some "Kore")) as (_ & _ & _ & H).
    destruct (H "hello" "Kore" eq_refl eq_refl) as (_ & H200 & _);
      [discriminate | discriminate |].
    apply H200. reflexivity.
  - destruct (text_to_speach_route_status (Some "key") (fun _ _ => inl chunks)
                guess_extension_default "0f"
                (Some (FsBroken "No space left on device" 16))
                (fun _ => "") (fun _ => None)
                (Some "hello") (Some "Kore")) as (_ & _ & _ & H).
    destruct (H "hello" "Kore" eq_refl eq_refl) as (_ & _ & _ & H500);
      [discriminate | discriminate |].
    apply H500. reflexivity.
Defined.

(** ** The constraints of [/generate_plan] *)

Lemma rstrip_with_cons sp (c : ascii) (r : string) :
  rstrip_with sp (String c r) =
  match rstrip_with sp r with
  | EmptyString => if sp c then EmptyString else String c EmptyString
  | r' => String c r'
  end.
Proof. reflexivity. Qed.

Lemma rstrip_with_idem sp (s : string) :
  rstrip_with sp (rstrip_with sp s) = rstrip_with sp s.
Proof.
  induction s as [|c r IH]; [reflexivity|].
  rewrite rstrip_with_cons. destruct (rstrip_with sp r) as [|c' r'] eqn:E.
  - destruct (sp c) eqn:Hc; [reflexivity|]. cbn. rewrite Hc. reflexivity.
  - rewrite rstrip_with_cons, IH. reflexivity.
Qed.

Lemma rstrip_with_head sp (c : ascii) (r : string) :
  sp c = false -> exists r', rstrip_with sp (String c r) = String c r'.
Proof.
  intros Hc. cbn [rstrip_with]. destruct (rstrip_with sp r) as [|c' r''].
  - rewrite Hc. eexists; reflexivity.
  - eexists; reflexivity.
Qed.

Lemma lstrip_with_head sp (s : string) :
  lstrip_with sp s = "" \/ exists c r, lstrip_with sp s = String c r /\ sp c = false.
Proof.
  induction s as [|c r IH]; [left; reflexivity|].
  cbn. destruct (sp c) eqn:Hc; [exact IH|]. right. exists c, r. auto.
Qed.

Lemma strip_with_idem sp (s : string) :
  strip_with sp (strip_with sp s) = strip_with sp s.
Proof.
  unfold strip_with.
  destruct (lstrip_with_head sp s) as [-> | (c & r & -> & Hc)]; [reflexivity|].
  destruct (rstrip_with_head sp c r Hc) as [r' E]. rewrite E.
  cbn [lstrip_with]. rewrite Hc, <- E. apply rstrip_with_idem.
Qed.

Lemma all_chars_lstrip P sp (s : string) :
  all_chars P s = true -> all_chars P (lstrip_with sp s) = true.
Proof.
  induction s as [|c r IH]; [reflexivity|].
  intros H. cbn [lstrip_with]. destruct (sp c); [|exact H].
  cbn in H. apply andb_true_iff in H. apply IH, H.
Qed.

Lemma all_chars_rstrip P sp (s : string) :
  all_chars P s = true -> all_chars P (rstrip_with sp s) = true.
Proof.
  induction s as [|c r IH]; [reflexivity|].
  intros H. cbn in H. apply andb_true_iff in H. destruct H as [Hc Hr].
  cbn [rstrip_with]. specialize (IH Hr).
  destruct (rstrip_with sp r) as [|c' r'].
  - destruct (sp c); [reflexivity|]. cbn. rewrite Hc. reflexivity.
  - cbn [all_chars] in *. rewrite Hc. exact IH.
Qed.

Lemma all_chars_strip P (s : string) :
  all_chars P s = true -> all_chars P (strip s) = true.
Proof. intros H. apply all_chars_rstrip, all_chars_lstrip, H. Qed.

Lemma split_pieces sep (s x : string) :
  In x (split sep s) -> all_chars (fun c => negb (Ascii.eqb c sep)) x = true.
Proof.
  revert x; induction s as [|c r IH]; intros x Hx.
  - destruct Hx as [<- | []]. reflexivity.
  - cbn [split] in Hx. destruct (Ascii.eqb c sep) eqn:Hc.
    + destruct Hx as [<- | Hx]; [reflexivity | apply IH, Hx].
    + destruct (split sep r) as [|w ws].
      * destruct Hx as [<- | []]. cbn. rewrite Hc. reflexivity.
      * destruct Hx as [<- | Hx].
        -- cbn. rewrite Hc. cbn. apply IH. left; reflexivity.
        -- apply IH. right; exact Hx.
Qed.

Lemma split_join sep (l : list string) :
  l <> [] ->
  (forall x, In x l -> all_chars (fun c => negb (Ascii.eqb c sep)) x = true) ->
  split sep (join (String sep "") l) = l.
Proof.
  induction l as [|x l IH]; intros Hne Hall; [contradiction|].
  destruct l as [|y l].
  - cbn [join]. apply split_no_sep. apply Hall. left; reflexivity.
  - change (join (String sep "") (x :: y :: l))
      with (x ++ String sep (join (String sep "") (y :: l))).
    rewrite split_app_sep by (apply Hall; left; reflexivity).
    rewrite IH; [reflexivity | discriminate |].
    intros z Hz. apply Hall. right; exact Hz.
Qed.

Lemma filter_nonblank_nil (l : list string) :
  filter (fun s => negb (blank s)) l = [] <-> forall y, In y l -> blank y = true.
Proof.
  split.
  - intros Hnil y Hy. destruct (blank y) eqn:Hb; [reflexivity|].
    assert (Hin : In y (filter (fun s => negb (blank s)) l))
      by (apply filter_In; split; [exact Hy | rewrite Hb; reflexivity]).
    rewrite Hnil in Hin. contradiction.
  - intros Hall. induction l as [|y ys IH]; [reflexivity|].
    cbn. rewrite (Hall y (or_introl eq_refl)). cbn. apply IH.
    intros z Hz. apply Hall. right; exact Hz.
Qed.

(** X7.  The constraints handed to the planner are never an empty list and
    never hold an empty or padded item: when the field gives a list, every
    item is non-empty, free of commas and of leading and trailing white
    space; the field gives no list at all exactly when every
    comma-separated piece of it is blank, an absent or empty field
    included. *)
Theorem constraints_list_items :
  forall constraints,
    (forall l, constraints_list constraints = Some l ->
       l <> [] /\
       forall x, In x l -> x <> "" /\ strip x = x /\ comma_free x = true) /\
    (constraints_list constraints = None <->
     forall y, In y (split "," (str_or constraints "")) -> blank y = true).
Proof.
  intros constraints.
  set (pieces := split "," (str_or constraints "")).
  assert (Hitems : forall x,
             In x (map strip (filter (fun s => negb (blank s)) pieces)) ->
             x <> "" /\ strip x = x /\ comma_free x = true).
  { intros x Hx. apply in_map_iff in Hx. destruct Hx as (y & <- & Hy).
    apply filter_In in Hy. destruct Hy as [Hy Hnb]. split; [|split].
    - unfold blank in Hnb. apply negb_true_iff in Hnb.
      apply String.eqb_neq in Hnb. exact Hnb.
    - apply strip_with_idem.
    - apply all_chars_strip. exact (split_pieces "," _ y Hy). }
  pose proof (filter_nonblank_nil pieces) as Hnone.
  unfold constraints_list. fold pieces.
  destruct (truthy constraints) eqn:Ht.
  - destruct (filter (fun s => negb (blank s)) pieces) as [|y ys] eqn:Hf.
    + split; [intros l H; discriminate H|].
      split; [intros _; apply Hnone; reflexivity | reflexivity].
    + cbn [map] in *. split.
      * intros l [= <-]. split; [discriminate | exact Hitems].
      * split; [discriminate|]. intros Hall.
        apply Hnone in Hall. discriminate Hall.
  - split; [intros l H; discriminate H|].
    split; [|reflexivity]. intros _.
    assert (Hp : pieces = [""]).
    { unfold pieces. destruct constraints as [[|c s]|]; try reflexivity. discriminate Ht. }
    rewrite Hp. intros y [<- | []]. reflexivity.
Qed.

Lemma constraints_list_items_witness :
  constraints_list (Some " no sugar ,, low cost,  ") = Some ["no sugar"; "low cost"] /\
  ["no sugar"; "low cost"] <> [] /\
  "low cost" <> "" /\ strip "low cost" = "low cost" /\ comma_free "low cost" = true.
Proof.
  destruct (constraints_list_items (Some " no sugar ,, low cost,  ")) as [H _].
  destruct (H ["no sugar"; "low cost"] eq_refl) as [Hne Hall].
  split; [reflexivity|]. split; [exact Hne|].
  apply Hall. right; left; reflexivity.
Defined.

(** X8.  Joining pieces with commas and reading the field back gives the
    pieces again, less the blank ones and each without its surrounding
    white space, provided no piece holds a comma; in particular a list of
    non-empty, unpadded, comma-free items survives the round trip
    unchanged.  Nothing else separates items: a field without a comma is
    one item. *)
Theorem constraints_list_join :
  (forall pieces,
      pieces <> [] ->
      (forall x, In x pieces -> comma_free x = true) ->
      constraints_list (Some (join "," pieces)) =
      match map strip (filter (fun s => negb (blank s)) pieces) with
      | [] => None
      | l => Some l
      end) /\
  (forall items,
      items <> [] ->
      (forall x, In x items -> x <> "" /\ strip x = x /\ comma_free x = true) ->
      constraints_list (Some (join "," items)) = Some items) /\
  (forall s, comma_free s = true -> blank s = false ->
             constraints_list (Some s) = Some [strip s]).
Proof.
  assert (G : forall pieces,
      pieces <> [] ->
      (forall x, In x pieces -> comma_free x = true) ->
      constraints_list (Some (join "," pieces)) =
      match map strip (filter (fun s => negb (blank s)) pieces) with
      | [] => None
      | l => Some l
      end).
  { intros pieces Hne Hfree.
    pose proof (split_join "," pieces Hne Hfree) as Hsplit.
    unfold constraints_list.
    destruct (join "," pieces) as [|c s] eqn:Hj.
    - cbn in Hsplit. rewrite <- Hsplit. reflexivity.
    - cbn [truthy str_or]. rewrite Hsplit.
      destruct (map strip (filter (fun s0 => negb (blank s0)) pieces)); reflexivity. }
  split; [exact G|]. split.
  - intros items Hne Hclean. rewrite G; [|exact Hne | intros x Hx; apply (Hclean x Hx)].
    assert (E : map strip (filter (fun s => negb (blank s)) items) = items).
    { clear Hne. induction items as [|x xs IH]; [reflexivity|].
      destruct (Hclean x (or_introl eq_refl)) as (Hx1 & Hx2 & _).
      cbn [filter]. unfold blank at 1. rewrite Hx2.
      apply String.eqb_neq in Hx1. rewrite Hx1. cbn [negb map]. rewrite Hx2.
      f_equal. apply IH. intros z Hz. apply Hclean. right; exact Hz. }
    rewrite E. destruct items; [contradiction | reflexivity].
  - intros s Hfree Hnb.
    change (Some s) with (Some (join "," [s])).
    rewrite (G [s]); [| discriminate | intros x [<- | []]; exact Hfree].
    cbn [filter]. rewrite Hnb. reflexivity.
Qed.

Lemma constraints_list_join_witness :
  constraints_list (Some (join "," ["a b"; "  "; " c"])) = Some ["a b"; "c"] /\
  constraints_list (Some (join "," ["x"; "y z"])) = Some ["x"; "y z"].
Proof.
  destruct constraints_list_join as (H1 & H2 & _). split.
  - apply (H1 ["a b"; "  "; " c"]); [discriminate|].
    intros x [<- | [<- | [<- | []]]]; reflexivity.
  - apply (H2 ["x"; "y z"]); [discriminate|].
    intros x [<- | [<- | []]]; repeat split; discriminate.
Defined.

(** ** The [/generate_speech_plan] endpoint *)

Lemma str_in_iff (x : string) (l : list string) : str_in x l = true <-> In x l.
Proof.
  unfold str_in. rewrite existsb_exists. split.
  - intros (y & Hy & E). apply String.eqb_eq in E. subst y. exact Hy.
  - intros H. exists x. split; [exact H | apply String.eqb_refl].
Qed.

Lemma words_or_default (w : string) : str_or (Some w) "None specified" <> "".
Proof. destruct w; discriminate. Qed.

Lemma generate_plan_invoke_ext search plan key (invoke invoke' : plan_vars -> plan + string)
    age delay language daily weeks words info :
  2 <= age <= 8 -> In delay delay_levels -> 1 <= weeks <= 12 ->
  (forall v, validated v -> invoke v = invoke' v) ->
  generate_speech_therapy_plan search plan key invoke age delay language daily weeks
    words info =
  generate_speech_therapy_plan search plan key invoke' age delay language daily weeks
    words info.
Proof.
  intros Hage Hdelay Hweeks Hext. unfold generate_speech_therapy_plan.
  destruct (truthy key); [|reflexivity].
  rewrite Hext; [reflexivity|].
  unfold validated. cbn. repeat split; try assumption; try lia.
  apply words_or_default.
Qed.

Lemma plan_success_iff search plan key (invoke : plan_vars -> plan + string)
    age delay language daily weeks words info :
  let r := generate_speech_therapy_plan search plan key invoke age delay language daily
             weeks words info in
  plan_success plan r = true <-> exists pl, plan_plan plan r = Some pl.
Proof.
  cbv zeta. unfold generate_speech_therapy_plan.
  destruct (truthy key); [destruct (invoke _)|]; cbn;
    (split; [try discriminate; intros _; eexists; reflexivity
            | try reflexivity; intros [pl H']; discriminate H']).
Qed.

(** The route function on validated arguments: the first failed check
    gives a 400 and its message, whatever the model chain; when all three
    pass, the generator runs on the lower-cased delay level and its result
    is the body. *)
Lemma generate_speech_plan_endpoint_cases search plan key
    age delay language daily weeks words info :
  let resp invoke := generate_speech_plan_endpoint search plan key invoke age delay
                       language daily weeks words info in
  let valid := 2 <= age <= 8 /\ In (lower delay) delay_levels /\ 1 <= weeks <= 12 in
  let r invoke := generate_speech_therapy_plan search plan key invoke age (lower delay)
                    language daily weeks words info in
  (~ valid /\
   exists message,
     (forall invoke, resp invoke = (400, PlanRejected plan message)) /\
     (~ 2 <= age <= 8 -> message = "Child age must be between 2 and 8 years")) \/
  (valid /\
   forall invoke,
     resp invoke = ((if plan_success plan (r invoke) then 200 else 500),
                    PlanResult plan (r invoke))).
Proof.
  cbv zeta. unfold generate_speech_plan_endpoint.
  destruct ((age <? 2) || (age >? 8))%Z eqn:Hage.
  { left. split; [lia|]. eexists. split; [reflexivity|]. reflexivity. }
  destruct (str_in (lower delay) delay_levels) eqn:Hdelay; cbn [negb].
  2:{ left. split.
      - intros (_ & Hin & _). apply str_in_iff in Hin. congruence.
      - eexists. split; [reflexivity|]. intros Hout. lia. }
  apply str_in_iff in Hdelay.
  destruct ((weeks <? 1) || (weeks >? 12))%Z eqn:Hweeks.
  { left. split; [lia|]. eexists. split; [reflexivity|]. intros Hout. lia. }
  right. split; [|reflexivity]. split; [lia|]. split; [exact Hdelay | lia].
Qed.

Lemma required_str_cases (x : option string) :
  (required_str x = None /\ truthy x = false) \/
  (exists s, required_str x = Some s /\ x = Some s /\ truthy x = true).
Proof.
  unfold required_str. destruct x as [[|c s]|]; cbn.
  - left. split; reflexivity.
  - right. eexists. repeat split.
  - left. split; reflexivity.
Qed.

Lemma optional_int_cases (x : int_field) (default : Z) :
  (optional_int x default = None /\ x = IntMalformed) \/
  (exists v, optional_int x default = Some v /\ x <> IntMalformed).
Proof.
  destruct x; cbn.
  - right. eexists. split; [reflexivity | discriminate].
  - left. split; reflexivity.
  - right. eexists. split; [reflexivity | discriminate].
Qed.

(** X9.  The [/generate_speech_plan] route answers 422, 400, 200 or 500.
    It answers 422, without calling the function, exactly when the age is
    missing or is not an integer, the delay level is missing or empty, or
    the daily time or the duration is sent and is not an integer.
    Otherwise the language defaults to [English], the daily time to 15 and
    the duration to 4, and the route answers 400 exactly when the age is
    outside 2..8, the delay level in lower case is not one of the three,
    or the duration is outside 1..12, an age outside 2..8 always giving
    the age message.  When the three checks pass the body is the
    generator's result for the lower-cased delay level, and the status is
    200 exactly when that result carries a plan, 500 otherwise.  The model
    chain is only ever run on validated variables: age in 2..8, one of the
    three lower-case delay levels, duration in 1..12, a non-empty text for
    the known words. *)
Theorem generate_speech_plan_route_checks :
  forall search plan key (invoke invoke' : plan_vars -> plan + string)
         child_age delay_level language daily_time_minutes plan_duration_weeks
         words_child_can_speak additional_info,
    let resp := generate_speech_plan_route search plan key invoke child_age delay_level
                  language daily_time_minutes plan_duration_weeks
                  words_child_can_speak additional_info in
    (status resp = 422 \/ status resp = 400 \/ status resp = 200 \/ status resp = 500) /\
    (status resp = 422 <->
     required_int child_age = None \/ truthy delay_level = false \/
     daily_time_minutes = IntMalformed \/ plan_duration_weeks = IntMalformed) /\
    (status resp = 422 -> resp = Unprocessable) /\
    (forall age delay daily weeks,
        required_int child_age = Some age ->
        required_str delay_level = Some delay ->
        optional_int daily_time_minutes 15 = Some daily ->
        optional_int plan_duration_weeks 4 = Some weeks ->
        let valid := 2 <= age <= 8 /\ In (lower delay) delay_levels /\ 1 <= weeks <= 12 in
        let result :=
          generate_speech_therapy_plan search plan key invoke age (lower delay)
            (str_or language "English") daily weeks (str_or words_child_can_speak "")
            (str_or additional_info "") in
        (status resp = 400 <-> ~ valid) /\
        (~ 2 <= age <= 8 ->
         resp = Handled (400, PlanRejected plan "Child age must be between 2 and 8 years")) /\
        (valid ->
         resp = Handled ((if plan_success plan result then 200 else 500),
                         PlanResult plan result)) /\
        (status resp = 200 <-> valid /\ exists pl, plan_plan plan result = Some pl)) /\
    ((forall v, validated v -> invoke v = invoke' v) ->
     resp = generate_speech_plan_route search plan key invoke' child_age delay_level
              language daily_time_minutes plan_duration_weeks
              words_child_can_speak additional_info).
Proof.
  intros search plan key invoke invoke' child_age delay_level language
         daily_time_minutes plan_duration_weeks words info resp.
  unfold resp, generate_speech_plan_route.
  destruct (required_int child_age) as [age|] eqn:Hage.
  2:{ cbn [status]. split; [left; reflexivity|].
      split; [split; [intros _; left; reflexivity | reflexivity]|].
      split; [reflexivity|].
      split; [intros age delay daily weeks H; discriminate H | reflexivity]. }
  destruct (required_str_cases delay_level) as [[-> Hd] | (delay & -> & Hdl & Hd)].
  { cbn [status]. split; [left; reflexivity|].
    split; [split; [intros _; right; left; exact Hd | reflexivity]|].
    split; [reflexivity|].
    split; [intros a delay daily weeks _ H; discriminate H | reflexivity]. }
  destruct (optional_int_cases daily_time_minutes 15) as [[-> Hm] | (daily & -> & Hm)].
  { cbn [status]. split; [left; reflexivity|].
    split; [split; [intros _; right; right; left; exact Hm | reflexivity]|].
    split; [reflexivity|].
    split; [intros a d daily weeks _ _ H; discriminate H | reflexivity]. }
  destruct (optional_int_cases plan_duration_weeks 4) as [[-> Hw] | (weeks & -> & Hw)].
  { cbn [status]. split; [left; reflexivity|].
    split; [split; [intros _; right; right; right; exact Hw | reflexivity]|].
    split; [reflexivity|].
    split; [intros a d dl weeks _ _ _ H; discriminate H | reflexivity]. }
  cbn [status].
  assert (Hsent : ~ (Some age = None \/ truthy delay_level = false \/
                     daily_time_minutes = IntMalformed \/
                     plan_duration_weeks = IntMalformed)).
  { intros [H | [H | [H | H]]]; [discriminate H | congruence | contradiction | contradiction]. }
  pose proof (plan_success_iff search plan key invoke age (lower delay)
                (str_or language "English") daily weeks (str_or words "") (str_or info ""))
    as Hplan. cbv zeta in Hplan.
  destruct (generate_speech_plan_endpoint_cases search plan key age delay
              (str_or language "English") daily weeks (str_or words "") (str_or info ""))
    as [(Hinvalid & message & Hresp & Hmessage) | (Hvalid & Hresp)];
    cbv zeta in Hresp; rewrite !Hresp; cbn [fst].
  - split; [right; left; reflexivity|].
    split; [split; [discriminate | intros H; contradiction]|].
    split; [discriminate|].
    split; [|reflexivity].
    intros a d dl w [= <-] [= <-] [= <-] [= <-]. cbv zeta.
    split; [split; [intros _; exact Hinvalid | reflexivity]|].
    split; [intros Hout; rewrite (Hmessage Hout); reflexivity|].
    split; [intros Hv; contradiction|].
    split; [discriminate | intros [Hv _]; contradiction].
  - set (r := generate_speech_therapy_plan search plan key invoke age (lower delay)
                (str_or language "English") daily weeks (str_or words "")
                (str_or info "")) in *.
    split; [destruct (plan_success plan r); auto|].
    split; [split; [destruct (plan_success plan r); discriminate
                   | intros H; contradiction]|].
    split; [destruct (plan_success plan r); discriminate|].
    split.
    + intros a d dl w [= <-] [= <-] [= <-] [= <-]. cbv zeta. fold r.
      split; [split; [destruct (plan_success plan r); discriminate
                     | intros H; contradiction]|].
      split; [intros Hout; exfalso; apply Hout; apply Hvalid|].
      split; [intros _; reflexivity|].
      split.
      * intros H200. split; [exact Hvalid|]. apply Hplan.
        destruct (plan_success plan r); [reflexivity | discriminate H200].
      * intros [_ Hpl]. apply Hplan in Hpl. rewrite Hpl. reflexivity.
    + intros Hext. unfold r.
      destruct Hvalid as (Ha & Hin & Hwk).
      rewrite (generate_plan_invoke_ext search plan key invoke invoke' age (lower delay)
                 (str_or language "English") daily weeks (str_or words "")
                 (str_or info "") Ha Hin Hwk Hext).
      reflexivity.
Qed.

Lemma generate_speech_plan_route_checks_witness :
  let route :=
    generate_speech_plan_route (fun _ _ => ([], None)) nat (Some "key")
      (fun _ => inl 7%nat) in
  route (IntValue 3) (Some "") None IntMissing IntMissing None None = Unprocessable /\
  status (route (IntValue 3) (Some "N/A") None IntMissing IntMissing None None) = 400 /\
  route (IntValue 9) (Some "slight delay") None IntMissing IntMissing None None
  = Handled (400, PlanRejected nat "Child age must be between 2 and 8 years") /\
  route (IntValue 3) (Some "Slight Delay") None IntMissing IntMissing None None
  = Handled (200, PlanResult nat
                    (generate_speech_therapy_plan (fun _ _ => ([], None)) nat (Some "key")
                       (fun _ => inl 7%nat) 3 "slight delay" "English" 15 4 "" "")).
Proof.
  intros route. split; [|split; [|split]].
  - destruct (generate_speech_plan_route_checks (fun _ _ => ([], None)) nat (Some "key")
                (fun _ => inl 7%nat) (fun _ => inl 7%nat)
                (IntValue 3) (Some "") None IntMissing IntMissing None None)
      as (_ & H422 & Hnone & _).
    apply Hnone. apply H422. right; left. reflexivity.
  - destruct (generate_speech_plan_route_checks (fun _ _ => ([], None)) nat (Some "key")
                (fun _ => inl 7%nat) (fun _ => inl 7%nat)
                (IntValue 3) (Some "N/A") None IntMissing IntMissing None None)
      as (_ & _ & _ & H & _).
    destruct (H 3 "N/A" 15 4 eq_refl eq_refl eq_refl eq_refl) as (H400 & _).
    apply H400. intros (_ & [E | [E | [E | []]]] & _); discriminate E.
  - destruct (generate_speech_plan_route_checks (fun _ _ => ([], None)) nat (Some "key")
                (fun _ => inl 7%nat) (fun _ => inl 7%nat)
                (IntValue 9) (Some "slight delay") None IntMissing IntMissing None None)
      as (_ & _ & _ & H & _).
    destruct (H 9 "slight delay" 15 4 eq_refl eq_refl eq_refl eq_refl) as (_ & Hage & _).
    apply Hage. lia.
  - destruct (generate_speech_plan_route_checks (fun _ _ => ([], None)) nat (Some "key")
                (fun _ => inl 7%nat) (fun _ => inl 7%nat)
                (IntValue 3) (Some "Slight Delay") None IntMissing IntMissing None None)
      as (_ & _ & _ & H & _).
    destruct (H 3 "Slight Delay" 15 4 eq_refl eq_refl eq_refl eq_refl) as (_ & _ & Hv & _).
    apply Hv. cbn. split; [lia|]. split; [auto | lia].
Defined.

Lemma delay_level_lower (delay : string) : In delay delay_levels -> lower delay = delay.
Proof. intros [<- | [<- | [<- | []]]]; reflexivity. Qed.

(** X10.  Whatever the dashboard lets through, the endpoint lets through:
    a form the dashboard's own checks accept is never answered 400, and
    its delay level reaches the generator as it was typed. *)
Theorem dashboard_checks_imply_endpoint_checks :
  forall search plan key (invoke : plan_vars -> plan + string)
         age delay language daily weeks words info,
    dashboard_accepts age delay weeks = true ->
    lower delay = delay /\
    fst (generate_speech_plan_endpoint search plan key invoke age delay language
           daily weeks words info) <> 400 /\
    snd (generate_speech_plan_endpoint search plan key invoke age delay language
           daily weeks words info)
    = PlanResult plan
        (generate_speech_therapy_plan search plan key invoke age delay language
           daily weeks words info).
Proof.
  intros search plan key invoke age delay language daily weeks words info Hd.
  unfold dashboard_accepts in Hd.
  destruct ((age <? 2) || (age >? 8))%Z eqn:Hage; [discriminate Hd|].
  destruct (str_in delay delay_levels) eqn:Hdelay; [|discriminate Hd]. cbn [negb] in Hd.
  destruct ((weeks <? 1) || (weeks >? 12))%Z eqn:Hweeks; [discriminate Hd|].
  pose proof (delay_level_lower delay (proj1 (str_in_iff _ _) Hdelay)) as Hlow.
  split; [exact Hlow|].
  unfold generate_speech_plan_endpoint. rewrite Hage, Hlow, Hdelay, Hweeks.
  cbn [negb fst snd]. split; [|reflexivity].
  destruct (plan_success plan _); discriminate.
Qed.

Lemma dashboard_checks_imply_endpoint_checks_witness :
  fst (generate_speech_plan_endpoint (fun _ _ => ([], None)) nat None
         (fun _ => inr "") 2 "severe delay" "Arabic" 5 12 "mama" "") <> 400.
Proof.
  apply (dashboard_checks_imply_endpoint_checks (fun _ _ => ([], None)) nat None
           (fun _ => inr "") 2 "severe delay" "Arabic" 5 12 "mama" "").
  reflexivity.
Defined.

(** ** The guidelines for an age *)





(** ** The dashboard's base URL and audio format *)

Lemma rstrip_with_last sp (s t : string) (c : ascii) :
  rstrip_with sp s = t ++ String c "" -> sp c = false.
Proof.
  revert t; induction s as [|a r IH]; intros t H.
  - destruct t; discriminate H.
  - rewrite rstrip_with_cons in H. destruct (rstrip_with sp r) as [|c' r'] eqn:E.
    + destruct (sp a) eqn:Ha; [destruct t; discriminate H|].
      destruct t as [|x t]; [injection H as <-; exact Ha|].
      injection H as _ H. destruct t; discriminate H.
    + destruct t as [|x t]; [discriminate H|].
      injection H as _ H. exact (IH t H).
Qed.

Lemma rstrip_with_empty sp (s : string) :
  rstrip_with sp s = "" <-> all_chars sp s = true.
Proof.
  induction s as [|a r IH]; [split; reflexivity|].
  rewrite rstrip_with_cons. cbn [all_chars].
  destruct (rstrip_with sp r) as [|c' r'].
  - destruct (sp a); cbn.
    + split; [intros _; apply IH; reflexivity | reflexivity].
    + split; discriminate.
  - split; [discriminate|]. intros H. apply andb_true_iff in H.
    destruct H as [_ H]. apply IH in H. discriminate H.
Qed.

Lemma rstrip_with_removed sp (s : string) :
  exists t, s = rstrip_with sp s ++ t /\ all_chars sp t = true.
Proof.
  induction s as [|a r (t & Hr & Ht)]; [exists ""; split; reflexivity|].
  rewrite rstrip_with_cons. destruct (rstrip_with sp r) as [|c' r'] eqn:E.
  - destruct (sp a) eqn:Ha.
    + exists (String a r). split; [reflexivity|]. cbn. rewrite Ha.
      apply rstrip_with_empty. exact E.
    + exists t. split; [cbn [append] in *; f_equal; exact Hr | exact Ht].
  - exists t. split; [cbn [append] in *; f_equal; exact Hr | exact Ht].
Qed.

Lemma absolute_url_path (api_url path : string) :
  absolute_url api_url (Some ("/" ++ path)) = api_url ++ "/" ++ path.
Proof.
  unfold absolute_url, startswith. cbn [append str_or]. rewrite prefix_cons.
  destruct (ascii_dec "/" "/"); [|congruence]. destruct path; reflexivity.
Qed.

(** X12.  The base URL the dashboard works with never ends with a slash:
    it is the typed text, or the built-in address when nothing was typed,
    less its trailing slashes and nothing else.  It is empty exactly when
    the typed text consists of slashes only.  A path returned by the
    server is therefore joined to it with a single slash. *)
Theorem api_url_without_trailing_slash :
  forall typed,
    (forall t, api_url_of typed <> t ++ "/") /\
    (exists k, str_or (Some typed) fallback_api_url = api_url_of typed ++ k /\
               all_chars is_slash k = true) /\
    api_url_of "" = fallback_api_url /\
    (api_url_of typed = "" <-> typed <> "" /\ all_chars is_slash typed = true) /\
    (forall path, absolute_url (api_url_of typed) (Some ("/" ++ path))
                  = api_url_of typed ++ "/" ++ path).
Proof.
  intros typed. unfold api_url_of, rstrip_slash.
  split; [|split; [|split; [|split]]].
  - intros t H. apply rstrip_with_last in H. discriminate H.
  - apply rstrip_with_removed.
  - reflexivity.
  - rewrite rstrip_with_empty. destruct typed as [|c s].
    + cbn. split; [discriminate | intros [H _]; contradiction].
    + cbn [str_or]. split; [intros H; split; [discriminate | exact H] | tauto].
  - intros path. apply absolute_url_path.
Qed.

Lemma contains_false_iff sep (s : string) :
  contains sep s = false <-> all_chars (fun c => negb (Ascii.eqb c sep)) s = true.
Proof.
  induction s as [|c r IH]; [split; reflexivity|].
  cbn. destruct (Ascii.eqb c sep); cbn; [split; discriminate | exact IH].
Qed.

Lemma rsplit1_no_sep sep (s : string) : contains sep s = false -> rsplit1 sep s = [s].
Proof.
  induction s as [|c r IH]; [reflexivity|].
  cbn [contains]. intros H. apply orb_false_iff in H. destruct H as [Hc Hr].
  cbn [rsplit1]. rewrite (IH Hr), Hc. reflexivity.
Qed.

Lemma rsplit1_at_last sep (p e : string) :
  contains sep e = false -> rsplit1 sep (p ++ String sep e) = [p; e].
Proof.
  intros He. induction p as [|c p IH].
  - cbn [append rsplit1]. rewrite (rsplit1_no_sep sep e He), Ascii.eqb_refl. reflexivity.
  - cbn [append rsplit1]. rewrite IH. reflexivity.
Qed.

Lemma contains_app sep (p e : string) : contains sep (p ++ String sep e) = true.
Proof.
  induction p as [|c p IH]; cbn; [rewrite Ascii.eqb_refl; reflexivity|].
  rewrite IH. apply orb_true_r.
Qed.

(** X13.  The format the dashboard plays a download with depends only on
    the text after the last dot of the URL, whatever its letter case: [wav]
    gives [audio/x-wav], [mp3], [ogg], [webm] and [m4a] give [audio/] and
    the extension, anything else and a URL without a dot give none.  So a
    file the server saved with the extension [.wav] and offered under
    [/public/] is played as [audio/x-wav], whatever the base URL and the
    identifier. *)
Theorem audio_format_of_extension :
  (forall p e,
      contains "." e = false ->
      audio_format (p ++ "." ++ e) =
      if str_in (lower e) ["wav"; "mp3"; "ogg"; "webm"; "m4a"]
      then Some ("audio/" ++ (if lower e =? "wav" then "x-wav" else lower e))
      else None) /\
  (forall url, contains "." url = false -> audio_format url = None) /\
  (forall api_url uuid_hex,
      audio_format (absolute_url api_url (Some ("/public/" ++ "tts_" ++ uuid_hex ++ ".wav")))
      = Some "audio/x-wav").
Proof.
  assert (G : forall p e,
      contains "." e = false ->
      audio_format (p ++ "." ++ e) =
      if str_in (lower e) ["wav"; "mp3"; "ogg"; "webm"; "m4a"]
      then Some ("audio/" ++ (if lower e =? "wav" then "x-wav" else lower e))
      else None).
  { intros p e He. unfold audio_format.
    change ("." ++ e) with (String "." e).
    rewrite contains_app, (rsplit1_at_last "." p e He). reflexivity. }
  split; [exact G|]. split.
  - intros url H. unfold audio_format. rewrite H. reflexivity.
  - intros api_url uuid_hex.
    change ("/public/" ++ "tts_" ++ uuid_hex ++ ".wav")
      with ("/" ++ ("public/tts_" ++ uuid_hex ++ "." ++ "wav")).
    rewrite absolute_url_path, <- !append_assoc.
    rewrite (append_assoc _ "." "wav"), (G _ "wav" eq_refl). reflexivity.
Qed.

Lemma audio_format_of_extension_witness :
  audio_format ("https://host.example/public/tts_0f" ++ "." ++ "MP3") = Some "audio/mp3" /\
  audio_format "https://host/public/file" = None.
Proof.
  destruct audio_format_of_extension as (H1 & H2 & _). split.
  - rewrite (H1 _ "MP3" eq_refl). reflexivity.
  - apply H2. reflexivity.
Defined.

Lemma collected_audio_witness :
  let chunk_of d :=
    mk_chunk (Some [mk_candidate (Some (mk_content (Some
      [mk_part (Some (mk_blob None (Some d))); mk_part None])))]) in
  fst (collect [chunk_of [x01]; chunk_of []; mk_chunk None; chunk_of [x02; x03]])
  = [[x01]; [x02; x03]].
Proof.
  intros chunk_of.
  destruct (collected_audio
              [chunk_of [x01]; chunk_of []; mk_chunk None; chunk_of [x02; x03]])
    as [H _].
  rewrite H. reflexivity.
Defined.

Lemma api_url_without_trailing_slash_witness :
  api_url_of "http://localhost:8000//" ++ "//" = "http://localhost:8000//" /\
  api_url_of "//" = "".
Proof.
  split.
  - reflexivity.
  - destruct (api_url_without_trailing_slash "//") as (_ & _ & _ & H & _).
    apply H. split; [discriminate | reflexivity].
Defined.

(** ** The messages of [text_to_speech] *)

(** X14.  The message of [text_to_speech] tells the outcome apart: a
    successful call always says [Speech synthesized successfully.]; a
    failed one says that the API key is missing, that no audio was
    received, or begins with [Error during TTS: ] followed by the text of
    the exception, and in the last case the key was present. *)
Theorem text_to_speech_messages :
  forall api_key stream guess_extension uuid_hex fs_error describe,
    let r := fst (text_to_speech api_key stream guess_extension uuid_hex fs_error
                    describe) in
    (tts_success r = true -> tts_message r = "Speech synthesized successfully.") /\
    (tts_success r = false ->
     tts_message r = "Missing GOOGLE_API_KEY in environment." \/
     tts_message r = "No audio data received from model." \/
     (truthy api_key = true /\ exists text, tts_message r = "Error during TTS: " ++ text)) /\
    (forall msg, truthy api_key = true -> stream = inr msg ->
                 tts_message r = "Error during TTS: " ++ msg).
Proof.
  intros api_key stream guess_extension uuid_hex fs_error describe r.
  unfold r, text_to_speech.
  destruct (truthy api_key) eqn:Hkey.
  2:{ cbn. split; [discriminate|]. split; [auto | intros; discriminate]. }
  destruct stream as [chunks|msg].
  2:{ cbn. split; [discriminate|]. split.
      - intros _. right; right. split; [reflexivity | eexists; reflexivity].
      - intros msg' _ [= <-]. reflexivity. }
  destruct (collect chunks) as [audio_chunks mime_type].
  destruct (text_to_speech_save guess_extension uuid_hex audio_chunks mime_type)
    as [|f p|e].
  - cbn. split; [discriminate|]. split; [auto | intros; discriminate].
  - destruct fs_error as [[msg|msg written]|]; cbn.
    + split; [discriminate|]. split; [|intros; discriminate].
      intros _. right; right. split; [reflexivity | eexists; reflexivity].
    + split; [discriminate|]. split; [|intros; discriminate].
      intros _. right; right. split; [reflexivity | eexists; reflexivity].
    + split; [reflexivity|]. split; [discriminate | intros; discriminate].
  - cbn. split; [discriminate|]. split; [|intros; discriminate].
    intros _. right; right. split; [reflexivity | eexists; reflexivity].
Qed.

Lemma text_to_speech_messages_witness :
  tts_message
    (fst (text_to_speech (Some "key") (inr "503 unavailable") guess_extension_default
            "0f" None (fun _ => "")))
  = "Error during TTS: 503 unavailable".
Proof.
  destruct (text_to_speech_messages (Some "key") (inr "503 unavailable")
              guess_extension_default "0f" None (fun _ => "")) as (_ & _ & H).
  apply H; reflexivity.
Defined.

(** ** White space in a MIME string *)

Lemma lstrip_with_spaces sp (w s : string) :
  all_chars sp w = true -> lstrip_with sp (w ++ s) = lstrip_with sp s.
Proof.
  induction w as [|c w IH]; [reflexivity|].
  cbn. intros H. apply andb_true_iff in H. destruct H as [Hc Hw].
  rewrite Hc. apply IH, Hw.
Qed.

Lemma rstrip_with_spaces sp (s w : string) :
  all_chars (fun c => negb (sp c)) s = true -> all_chars sp w = true ->
  rstrip_with sp (s ++ w) = s.
Proof.
  intros Hs Hw. induction s as [|c s IH].
  - apply rstrip_with_empty. exact Hw.
  - cbn in Hs. apply andb_true_iff in Hs. destruct Hs as [Hc Hs].
    apply negb_true_iff in Hc.
    cbn [append]. rewrite rstrip_with_cons, (IH Hs), Hc. destruct s; reflexivity.
Qed.

Lemma strip_with_padded sp (w1 s w2 : string) :
  all_chars sp w1 = true -> all_chars (fun c => negb (sp c)) s = true ->
  all_chars sp w2 = true ->
  strip_with sp (w1 ++ s ++ w2) = s.
Proof.
  intros H1 Hs H2. unfold strip_with. rewrite (lstrip_with_spaces sp w1 _ H1).
  destruct s as [|c s].
  - cbn [append].
    replace (lstrip_with sp w2) with "".
    + reflexivity.
    + symmetry. clear H1. induction w2 as [|c w IH]; [reflexivity|].
      cbn in H2 |- *. apply andb_true_iff in H2. destruct H2 as [Hc Hw].
      rewrite Hc. apply IH, Hw.
  - pose proof Hs as Hs'. cbn in Hs'. apply andb_true_iff in Hs'.
    destruct Hs' as [Hc _]. apply negb_true_iff in Hc.
    cbn [append lstrip_with]. rewrite Hc.
    exact (rstrip_with_spaces sp (String c s) w2 Hs H2).
Qed.

Lemma space_not_semicolon (w : string) :
  all_chars isspace w = true -> all_chars (fun c => negb (Ascii.eqb c ";")) w = true.
Proof. apply all_chars_impl. intros c. by_cases_on_ascii c. Qed.

Lemma int_space_is_space (w : string) :
  all_chars int_isspace w = true -> all_chars isspace w = true.
Proof. apply all_chars_impl. intros c. by_cases_on_ascii c. Qed.

Lemma py_int_padded (w1 w2 : string) (n : Z) :
  (decimal_digits n <= int_max_str_digits)%nat ->
  all_chars int_isspace w1 = true -> all_chars int_isspace w2 = true ->
  py_int (w1 ++ py_str n ++ w2) = Ret n.
Proof.
  intros Hn H1 H2. rewrite <- (py_int_py_str n Hn). unfold py_int.
  rewrite (strip_with_padded int_isspace w1 (py_str n) w2 H1); [|
    generalize (py_str_chars n); apply all_chars_impl; exact digit_not_int_space | exact H2].
  rewrite strip_with_id; [reflexivity|].
  generalize (py_str_chars n); apply all_chars_impl; exact digit_not_int_space.
Qed.

Lemma rstrip_with_suffix sp (x s w : string) :
  all_chars (fun c => negb (sp c)) s = true -> s <> "" -> all_chars sp w = true ->
  rstrip_with sp (x ++ s ++ w) = x ++ s.
Proof.
  intros Hs Hne Hw. induction x as [|a x IH].
  - change (rstrip_with sp (s ++ w) = s). apply rstrip_with_spaces; assumption.
  - change (rstrip_with sp (String a (x ++ s ++ w)) = String a (x ++ s)).
    rewrite rstrip_with_cons, IH.
    destruct (x ++ s) as [|c r] eqn:E; [|reflexivity].
    exfalso. destruct x as [|b x]; [exact (Hne E) | discriminate E].
Qed.

Lemma lstrip_with_to_head sp (w : string) (c : ascii) (r : string) :
  all_chars sp w = true -> sp c = false ->
  lstrip_with sp (w ++ String c r) = String c r.
Proof.
  intros Hw Hc. rewrite (lstrip_with_spaces sp w _ Hw). cbn. rewrite Hc. reflexivity.
Qed.

Lemma py_str_nonempty (n : Z) : py_str n <> "".
Proof.
  unfold py_str. destruct (Z.to_int n) as [d|d]; cbn [NilZero.string_of_int].
  - apply uint_string_nonempty.
  - discriminate.
Qed.

Lemma py_str_no_space (n : Z) : all_chars (fun c => negb (isspace c)) (py_str n) = true.
Proof. apply plain_no_space, py_str_plain. Qed.

Lemma append_empty (s : string) : s ++ "" = s.
Proof. induction s as [|c s IH]; cbn; [reflexivity | rewrite IH; reflexivity]. Qed.

(** A part [head ++ v ++ <number>] between white space, where [head] begins
    with a character that is not white space. *)
Lemma strip_padded_part (w1 w2 v : string) (c : ascii) (head : string) (n : Z) :
  all_chars isspace w1 = true -> all_chars isspace w2 = true -> isspace c = false ->
  strip (w1 ++ String c head ++ v ++ py_str n ++ w2) = String c head ++ v ++ py_str n.
Proof.
  intros H1 H2 Hc. unfold strip, strip_with.
  change (String c head ++ v ++ py_str n ++ w2)
    with (String c (head ++ v ++ py_str n ++ w2)).
  rewrite (lstrip_with_to_head isspace w1 c _ H1 Hc).
  change (String c (head ++ v ++ py_str n ++ w2))
    with (String c head ++ v ++ py_str n ++ w2).
  rewrite <- (append_assoc (String c head) v), <- (append_assoc _ (py_str n) w2).
  rewrite (append_assoc (String c head ++ v) (py_str n) w2).
  rewrite (rstrip_with_suffix isspace (String c head ++ v) (py_str n) w2
             (py_str_no_space n) (py_str_nonempty n) H2).
  rewrite append_assoc. reflexivity.
Qed.

Lemma padded_part_no_semicolon (w1 w2 v head : string) (n : Z) :
  all_chars isspace w1 = true -> all_chars isspace w2 = true ->
  all_chars int_isspace v = true ->
  all_chars (fun c => negb (Ascii.eqb c ";")) head = true ->
  all_chars (fun c => negb (Ascii.eqb c ";")) (w1 ++ head ++ v ++ py_str n ++ w2) = true.
Proof.
  intros H1 H2 Hv Hh. rewrite !all_chars_app.
  rewrite (space_not_semicolon w1 H1), (space_not_semicolon w2 H2), Hh.
  rewrite (space_not_semicolon v (int_space_is_space v Hv)).
  rewrite (plain_no_semicolon _ (py_str_plain n)). reflexivity.
Qed.

Lemma uint_of_char_not_digit (c : ascii) (d : option Decimal.uint) :
  is_digit c = false -> uint_of_char c d = None.
Proof. destruct d; [|reflexivity]. by_cases_on_ascii c; intros _; reflexivity. Qed.

Lemma digits_value_bad_head (c : ascii) (r : string) :
  is_digit c = false -> digits_value (String c r) = Raise ValueError.
Proof.
  intros Hd. unfold digits_value.
  destruct (underscores_ok false (String c r)) eqn:Hu; [|reflexivity].
  destruct (is_underscore c) eqn:Hc; [cbn in Hu; rewrite Hc in Hu; discriminate Hu|].
  cbn [drop_underscores]. rewrite Hc.
  destruct (int_max_str_digits <? _)%nat; [reflexivity|].
  unfold NilZero.uint_of_string. cbn [NilEmpty.uint_of_string].
  rewrite (uint_of_char_not_digit c _ Hd). reflexivity.
Qed.

(** [int] does not skip the separators that only [str.isspace] accepts. *)
Lemma py_int_separator (c : ascii) (t : string) :
  isspace c = true -> int_isspace c = false -> py_int (String c t) = Raise ValueError.
Proof.
  intros Hs Hi. unfold py_int, strip_with.
  replace (lstrip_with int_isspace (String c t)) with (String c t)
    by (cbn [lstrip_with]; rewrite Hi; reflexivity).
  rewrite rstrip_with_cons, Hi.
  assert (Hd : is_digit c = false) by (revert Hs; by_cases_on_ascii c).
  assert (Hsign : forall r, match String c r with
                            | String "+" r' => digits_value r'
                            | String "-" r' => v <- digits_value r' ;; Ret (- v)
                            | t' => digits_value t'
                            end = digits_value (String c r)).
  { intros r. revert Hs. by_cases_on_ascii c. }
  destruct (rstrip_with int_isspace t) as [|a r]; rewrite Hsign;
    apply digits_value_bad_head; exact Hd.
Qed.

(** X15.  White space around the parts of a MIME string is ignored, and so
    is, between [audio/L] or [rate=] and the number, the white space that
    [int] skips (tab, line feed, vertical tab, form feed, carriage return,
    space, U+0085 and U+00A0): for integers of at most 4300 digits,
    [audio/L<bits>;rate=<hz>] padded in this way still parses to that
    depth and that rate.  The separators U+001C to U+001F are white space
    for [strip] but not for [int]: one of them before the number is not
    ignored, and the part then assigns nothing. *)
Theorem parse_ignores_padding :
  (forall bits rate_hz w1 w2 w3 w4 v1 v2,
      (decimal_digits bits <= int_max_str_digits)%nat ->
      (decimal_digits rate_hz <= int_max_str_digits)%nat ->
      all_chars isspace w1 = true -> all_chars isspace w2 = true ->
      all_chars isspace w3 = true -> all_chars isspace w4 = true ->
      all_chars int_isspace v1 = true -> all_chars int_isspace v2 = true ->
      parse_audio_mime_type
        (Some ((w1 ++ "audio/L" ++ v1 ++ py_str bits ++ w2) ++ ";"
               ++ (w3 ++ "rate=" ++ v2 ++ py_str rate_hz ++ w4)))
      = Ret (mk_params bits rate_hz)) /\
  (forall c t st,
      isspace c = true -> int_isspace c = false ->
      parse_part ("audio/L" ++ String c t) st = Ret st /\
      parse_part ("rate=" ++ String c t) st = Ret st) /\
  parse_audio_mime_type
    (Some ("audio/L" ++ String (ascii_of_nat 28) "24" ++ ";rate="
           ++ String (ascii_of_nat 31) "48000"))
  = Ret (mk_params 16 24000).
Proof.
  split; [|split; [|reflexivity]].
  - intros bits rate_hz w1 w2 w3 w4 v1 v2 Hbits Hrate H1 H2 H3 H4 G1 G2.
    rewrite parse_eq, mime_parts_Some.
    change (";" ++ (w3 ++ "rate=" ++ v2 ++ py_str rate_hz ++ w4))
      with (String ";" (w3 ++ "rate=" ++ v2 ++ py_str rate_hz ++ w4)).
    rewrite split_app_sep
      by (apply padded_part_no_semicolon; try assumption; reflexivity).
    rewrite split_no_sep
      by (apply padded_part_no_semicolon; try assumption; reflexivity).
    cbn [map].
    rewrite (strip_padded_part w1 w2 v1 "a" "udio/L" bits H1 H2 eq_refl).
    rewrite (strip_padded_part w3 w4 v2 "r" "ate=" rate_hz H3 H4 eq_refl).
    unfold last_set. cbn [fold_left].
    change (String "a" "udio/L" ++ v1 ++ py_str bits) with ("audio/L" ++ (v1 ++ py_str bits)).
    change (String "r" "ate=" ++ v2 ++ py_str rate_hz) with ("rate=" ++ (v2 ++ py_str rate_hz)).
    rewrite bits_of_literal_part, rate_of_literal_part.
    rewrite (rate_of_cased_part "rate=" _ eq_refl), (bits_of_cased_rate_part "rate=" _ eq_refl).
    rewrite <- (append_empty (py_str bits)), <- (append_empty (py_str rate_hz)).
    rewrite (py_int_padded v1 "" bits Hbits G1 eq_refl).
    rewrite (py_int_padded v2 "" rate_hz Hrate G2 eq_refl).
    reflexivity.
  - intros c t st Hs Hi. split; rewrite parse_part_eq.
    + rewrite bits_of_literal_part, rate_of_literal_part, (py_int_separator c t Hs Hi).
      destruct st; reflexivity.
    + rewrite (rate_of_cased_part "rate=" _ eq_refl), (bits_of_cased_rate_part "rate=" _ eq_refl).
      rewrite (py_int_separator c t Hs Hi). destruct st; reflexivity.
Qed.

Lemma parse_ignores_padding_witness :
  parse_audio_mime_type
    (Some ((String (ascii_of_nat 28) " " ++ "audio/L" ++ " " ++ py_str 24 ++ " ") ++ ";"
           ++ ("  " ++ "rate=" ++ String (ascii_of_nat 9) "" ++ py_str 48000
               ++ String (ascii_of_nat 31) "")))
  = Ret (mk_params 24 48000) /\
  parse_part ("rate=" ++ String (ascii_of_nat 28) "48000") (mk_params 8 9)
  = Ret (mk_params 8 9).
Proof.
  destruct parse_ignores_padding as (Hpad & Hsep & _).
  split.
  - apply Hpad; try reflexivity; vm_compute; lia.
  - apply (Hsep (ascii_of_nat 28) "48000" (mk_params 8 9)); reflexivity.
Defined.

(** ** A missing model key *)


